(** * Event-driven image processing: worker, processor and admission API

    A shallow embedding of
      - pkg/types            (the job envelope and its constants),
      - pkg/processor/image.go (ProcessJob and its helpers),
      - services/worker/main.go (the consumption loop and saveJob),
      - services/api/main.go    (handleCreateJob),
    followed by the properties the design document states about them.

    Go's [int] values are only compared here, never added or multiplied,
    so they are integers [Z] without wrap-around.  Errors are the text
    that [err.Error()] returns; [fmt.Errorf("...: %w", err)] is the prefix
    followed by the text of the wrapped error.  A panic of the imaging
    library is not recovered anywhere in the repository: it ends the
    worker process, and is an outcome of its own.  Calls to [log.Printf]
    have no effect on any store and are left out, except that their
    arguments are still evaluated where they read the clock. *)

From Stdlib Require Import ZArith Lia Ascii.
From stdpp Require Import base option list gmap strings pretty.

Local Open Scope string_scope.
Local Open Scope Z_scope.
Local Open Scope list_scope.

(** ** Results of fallible calls: Go's [(value, err)] pairs *)

Inductive result (A : Type) : Type :=
  | Ok (a : A)
  | Err (e : string).
Arguments Ok {A} a.
Arguments Err {A} e.

(** ** Calls that may not return: a panic ends the process *)

Inductive Outcome (A : Type) : Type :=
  | Done (a : A)
  | Panic (msg : string).
Arguments Done {A} a.
Arguments Panic {A} msg.

Definition omap {A B} (f : A -> B) (o : Outcome A) : Outcome B :=
  match o with
  | Done a => Done (f a)
  | Panic msg => Panic msg
  end.

Definition returned {A} (o : Outcome A) : bool :=
  match o with
  | Done _ => true
  | Panic _ => false
  end.

Definition Bytes := list Byte.byte.

(** ** pkg/types *)

Module ImageOperation.
Record t := mk {
  Type_ : string;      (* resize, format, watermark *)
  Width : Z;           (* for resize operations *)
  Height : Z;          (* for resize operations *)
  Format : string;     (* jpeg, png, webp *)
  Quality : Z;         (* 1-100 for JPEG/WebP *)
  Watermark : string;  (* watermark text or logo path *)
  OutputKey : string   (* unique key for this output *)
}.

Definition with_OutputKey (k : string) (op : t) : t :=
  mk (Type_ op) (Width op) (Height op) (Format op) (Quality op)
     (Watermark op) k.
End ImageOperation.

Module ProcessedImage.
Record t := mk {
  Operation : ImageOperation.t;
  OutputURL : string;
  OutputKey : string;
  Size : Z;            (* file size in bytes *)
  Width : Z;
  Height : Z;
  Format : string;
  ProcessingTime : Z   (* time.Duration, nanoseconds *)
}.
End ProcessedImage.

Module Job.
Record t := mk {
  ID : string;
  Status : string;
  ImageURL : string;
  Operations : list ImageOperation.t;
  CreatedAt : Z;               (* time.Time, as an instant *)
  CompletedAt : option Z;      (* *time.Time *)
  Results : list ProcessedImage.t;
  Error : string
}.

Definition with_Status (st : string) (j : t) : t :=
  mk (ID j) st (ImageURL j) (Operations j) (CreatedAt j) (CompletedAt j)
     (Results j) (Error j).
Definition with_Error (e : string) (j : t) : t :=
  mk (ID j) (Status j) (ImageURL j) (Operations j) (CreatedAt j)
     (CompletedAt j) (Results j) e.
Definition with_Results (rs : list ProcessedImage.t) (j : t) : t :=
  mk (ID j) (Status j) (ImageURL j) (Operations j) (CreatedAt j)
     (CompletedAt j) rs (Error j).
Definition with_CompletedAt (c : option Z) (j : t) : t :=
  mk (ID j) (Status j) (ImageURL j) (Operations j) (CreatedAt j) c
     (Results j) (Error j).
End Job.

(* JobStatus constants *)
Definition StatusPending := "pending".
Definition StatusInProgress := "in_progress".
Definition StatusCompleted := "completed".
Definition StatusFailed := "failed".

(* OperationType constants *)
Definition OpResize := "resize".
Definition OpFormat := "format".
Definition OpWatermark := "watermark".

(* ImageFormat constants *)
Definition FormatJPEG := "jpeg".
Definition FormatPNG := "png".
Definition FormatWebP := "webp".

(** A terminal state of the job state machine. *)
Definition is_terminal (st : string) : bool :=
  String.eqb st StatusCompleted || String.eqb st StatusFailed.

(** ** The imaging capability

    [image.Image] with the functions of the imaging and encoding
    libraries that the processor calls.  They are a black box to this
    repository, so the processor is written over any implementation.
    imaging.Resize allocates the new raster and panics (or exhausts the
    memory) when it is too large: it may not return. *)

Inductive ResampleFilter := Lanczos.

Class Imaging := {
  Image : Type;
  Decode : Bytes -> result Image;                    (* imaging.Decode *)
  Resize : Image -> Z -> Z -> ResampleFilter -> Outcome Image;
                                                     (* imaging.Resize *)
  Dx : Image -> Z;                                   (* img.Bounds().Dx() *)
  Dy : Image -> Z;                                   (* img.Bounds().Dy() *)
  jpegEncode : Image -> Z -> result Bytes;           (* jpeg.Encode, Quality *)
  pngEncode : Image -> result Bytes                  (* png.Encode *)
}.

(** ** The outside world

    Everything the three stores and the network decide.  UUIDs, clock
    readings and the outcomes of writes are indexed by the number of
    earlier calls of the same kind; a source is fetched once per delivery,
    and its answer is given by the reference.  Every call to a store or to
    the network answers, with a value or with an error: a worker that
    waits for ever on a call is not described here. *)

Inductive HttpOutcome :=
  | RequestError (e : string)            (* http.NewRequestWithContext fails *)
  | TransportError (e : string)          (* http.DefaultClient.Do fails *)
  | Response (StatusCode : Z) (Body : Bytes).

Record World := {
  http_do : string -> HttpOutcome;
  get_object_err : string -> option string;  (* minio GetObject's own error *)
  uuid_new : nat -> string;                  (* uuid.New().String() *)
  clock : nat -> Z;                          (* time.Now() *)
  put_object_err : nat -> option string;     (* minio PutObject *)
  redis_set_err : nat -> option string;      (* rdb.Set(...).Err() *)
  publish_err : nat -> option string         (* rmqChan.PublishWithContext *)
}.

Record Object := { data : Bytes; ContentType : string }.

(** A value of the status store: the whole envelope and its expiry. *)
Record Entry := { envelope : Job.t; ttl : Z }.

Definition Hour : Z := 3600 * 1000000000.

(* image.ErrFormat *)
Definition ErrFormat := "image: unknown format".

Section Pipeline.
Context `{Imaging}.

(** Calls that the properties below speak about, in the order made. *)
Inductive Event :=
  | EvApply (input : Image) (op : ImageOperation.t) (output : Image)
  | EvPut (key : string) (contentType : string) (ok : bool)
  | EvSet (key : string) (job : Job.t) (ok : bool).

Record State := mkState {
  bucket : gmap string Object;   (* the MinIO bucket *)
  rdb : gmap string Entry;       (* Redis *)
  queue : list Job.t;            (* bodies published to "jobs" *)
  uuids : nat;                   (* UUIDs drawn so far *)
  ticks : nat;                   (* clock readings so far *)
  puts : nat;                    (* PutObject calls so far *)
  sets : nat;                    (* Redis Set calls so far *)
  pubs : nat;                    (* publish calls so far *)
  trace : list Event
}.

Definition M (A : Type) : Type := State -> A * State.
Definition ret {A} (a : A) : M A := fun s => (a, s).
Definition bind {A B} (m : M A) (k : A -> M B) : M B :=
  fun s => let (a, s') := m s in k a s'.

Notation "x <~ m ;; k" := (bind m (fun x => k))
  (at level 100, m at next level, right associativity).

(** The same with panics: a panic keeps the state reached and skips
    what follows. *)
Definition P (A : Type) : Type := State -> Outcome A * State.
Definition lift {A} (m : M A) : P A :=
  fun s => let (a, s') := m s in (Done a, s').
Definition call {A} (o : Outcome A) : P A := fun s => (o, s).
Definition pbind {A B} (m : P A) (k : A -> P B) : P B :=
  fun s => match m s with
           | (Done a, s') => k a s'
           | (Panic msg, s') => (Panic msg, s')
           end.

Notation "x <- m ;; k" := (pbind m (fun x => k))
  (at level 100, m at next level, right associativity).

Variable w : World.

(** *** Primitive effects *)

Definition Now : M Z := fun s =>
  (clock w (ticks s),
   mkState (bucket s) (rdb s) (queue s) (uuids s) (S (ticks s)) (puts s)
           (sets s) (pubs s) (trace s)).

Definition Since (t : Z) : M Z := now <~ Now ;; ret (now - t).

Definition uuidNew : M string := fun s =>
  (uuid_new w (uuids s),
   mkState (bucket s) (rdb s) (queue s) (S (uuids s)) (ticks s) (puts s)
           (sets s) (pubs s) (trace s)).

Definition emit (e : Event) : M unit := fun s =>
  (tt,
   mkState (bucket s) (rdb s) (queue s) (uuids s) (ticks s) (puts s)
           (sets s) (pubs s) (trace s ++ [e])).

Definition PutObject (key : string) (buf : Bytes) (contentType : string)
  : M (option string) := fun s =>
  match put_object_err w (puts s) with
  | Some e =>
      (Some e,
       mkState (bucket s) (rdb s) (queue s) (uuids s) (ticks s)
               (S (puts s)) (sets s) (pubs s)
               (trace s ++ [EvPut key contentType false]))
  | None =>
      (None,
       mkState (<[key := Build_Object buf contentType]> (bucket s)) (rdb s)
               (queue s) (uuids s) (ticks s) (S (puts s)) (sets s) (pubs s)
               (trace s ++ [EvPut key contentType true]))
  end.

Definition rdbSet (key : string) (job : Job.t) (expiry : Z)
  : M (option string) := fun s =>
  match redis_set_err w (sets s) with
  | Some e =>
      (Some e,
       mkState (bucket s) (rdb s) (queue s) (uuids s) (ticks s) (puts s)
               (S (sets s)) (pubs s) (trace s ++ [EvSet key job false]))
  | None =>
      (None,
       mkState (bucket s) (<[key := Build_Entry job expiry]> (rdb s))
               (queue s) (uuids s) (ticks s) (puts s) (S (sets s)) (pubs s)
               (trace s ++ [EvSet key job true]))
  end.

Definition Publish (body : Job.t) : M (option string) := fun s =>
  match publish_err w (pubs s) with
  | Some e =>
      (Some e,
       mkState (bucket s) (rdb s) (queue s) (uuids s) (ticks s) (puts s)
               (sets s) (S (pubs s)) (trace s))
  | None =>
      (None,
       mkState (bucket s) (rdb s) (queue s ++ [body]) (uuids s) (ticks s)
               (puts s) (sets s) (S (pubs s)) (trace s))
  end.

(** *** pkg/processor/image.go *)

(* downloadFromHTTP *)
Definition downloadFromHTTP (url : string) : M (result Image) :=
  match http_do w url with
  | RequestError e => ret (Err ("failed to create request: " +:+ e))
  | TransportError e => ret (Err ("failed to download image: " +:+ e))
  | Response code body =>
      if negb (code =? 200) then
        ret (Err ("HTTP error: " +:+ pretty code))
      else
        match Decode body with
        | Err e => ret (Err ("failed to decode image: " +:+ e))
        | Ok img => ret (Ok img)
        end
  end.

(* downloadFromStorage: GetObject is lazy, a missing key shows up when
   Decode reads the object; image.Decode drops the error of the read and
   reports a stream it cannot recognise. *)
Definition downloadFromStorage (objectKey : string) : M (result Image) :=
  fun s =>
  match get_object_err w objectKey with
  | Some e => (Err ("failed to get object from storage: " +:+ e), s)
  | None =>
      match bucket s !! objectKey with
      | None => (Err ("failed to decode image: " +:+ ErrFormat), s)
      | Some obj =>
          match Decode (data obj) with
          | Err e => (Err ("failed to decode image: " +:+ e), s)
          | Ok img => (Ok img, s)
          end
      end
  end.

(* downloadImage *)
Definition downloadImage (imageURL : string) : M (result Image) :=
  if String.prefix "http://" imageURL || String.prefix "https://" imageURL
  then downloadFromHTTP imageURL
  else downloadFromStorage imageURL.

(* addWatermark: returns the original image *)
Definition addWatermark (img : Image) (text : string) : Image := img.

(* applyOperation; a panic of imaging.Resize passes through *)
Definition applyOperation (img : Image) (op : ImageOperation.t)
  : Outcome (result Image) :=
  let result := img in
  match
    if String.eqb (ImageOperation.Type_ op) OpResize
       && ((0 <? ImageOperation.Width op) || (0 <? ImageOperation.Height op))
    then
      if (0 <? ImageOperation.Width op) && (0 <? ImageOperation.Height op)
      then Resize result (ImageOperation.Width op)
                  (ImageOperation.Height op) Lanczos
      else if 0 <? ImageOperation.Width op
      then Resize result (ImageOperation.Width op) 0 Lanczos
      else Resize result 0 (ImageOperation.Height op) Lanczos
    else Done result
  with
  | Panic msg => Panic msg
  | Done result =>
      let result :=
        if String.eqb (ImageOperation.Type_ op) OpWatermark
           && negb (String.eqb (ImageOperation.Watermark op) "")
        then addWatermark result (ImageOperation.Watermark op)
        else result in
      Done (Ok result)
  end.

(** The encoder that the [switch op.Format] of uploadResult runs, with
    the quality it is given. *)
Inductive Encoder := EncodeJPEG (quality : Z) | EncodePNG.

Definition encoderFor (op : ImageOperation.t) : Encoder :=
  if String.eqb (ImageOperation.Format op) FormatJPEG then
    let quality := ImageOperation.Quality op in
    let quality := if quality =? 0 then 90 else quality in
    EncodeJPEG quality
  else if String.eqb (ImageOperation.Format op) FormatPNG then
    EncodePNG
  else if String.eqb (ImageOperation.Format op) FormatWebP then
    (* WebP encoding not yet implemented, fallback to JPEG *)
    EncodeJPEG 90
  else
    (* Default to JPEG *)
    EncodeJPEG 90.

Definition runEncoder (e : Encoder) (img : Image) : result Bytes :=
  match e with
  | EncodeJPEG quality => jpegEncode img quality
  | EncodePNG => pngEncode img
  end.

(* "Add file extension" *)
Definition fileExtension (format : string) : string :=
  let ext := "." +:+ format in
  if String.eqb ext ".jpeg" then ".jpg" else ext.

(* uploadResult *)
Definition uploadResult (img : Image) (op : ImageOperation.t)
  : M (result string) :=
  match runEncoder (encoderFor op) img with
  | Err e => ret (Err ("failed to encode image: " +:+ e))
  | Ok buf =>
      let ext := fileExtension (ImageOperation.Format op) in
      let objectKey := ImageOperation.OutputKey op +:+ ext in
      err <~ PutObject objectKey buf
               ("image/" +:+ ImageOperation.Format op) ;;
      match err with
      | Some e => ret (Err ("failed to upload to storage: " +:+ e))
      | None => ret (Ok objectKey)
      end
  end.

(* "Generate output key".  A UUID string has 36 characters, so the slice
   [:8] is always in range. *)
Definition generateOutputKey (op : ImageOperation.t) (jobID : string)
  : M ImageOperation.t :=
  if String.eqb (ImageOperation.OutputKey op) "" then
    u <~ uuidNew ;;
    ret (ImageOperation.with_OutputKey
           ("processed/" +:+ jobID +:+ "/" +:+ ImageOperation.Type_ op
              +:+ "_" +:+ String.substring 0 8 u) op)
  else ret op.

(* processOperation *)
Definition processOperation (img : Image) (op : ImageOperation.t)
    (jobID : string) : P (result ProcessedImage.t) :=
  startTime <- lift Now ;;
  a <- call (applyOperation img op) ;;
  match a with
  | Err e => lift (ret (Err ("failed to apply operation: " +:+ e)))
  | Ok processedImg =>
      _ <- lift (emit (EvApply img op processedImg)) ;;
      op <- lift (generateOutputKey op jobID) ;;
      r <- lift (uploadResult processedImg op) ;;
      match r with
      | Err e => lift (ret (Err ("failed to upload result: " +:+ e)))
      | Ok outputURL =>
          elapsed <- lift (Since startTime) ;;
          lift (ret (Ok (ProcessedImage.mk op outputURL
                           (ImageOperation.OutputKey op) 0
                           (Dx processedImg) (Dy processedImg)
                           (ImageOperation.Format op) elapsed)))
      end
  end.

(* ProcessJob, "Process each operation": the range loop, with the
   slice [results] built so far. *)
Fixpoint processOperations (img : Image) (ops : list ImageOperation.t)
    (jobID : string) (results : list ProcessedImage.t)
  : P (list ProcessedImage.t) :=
  match ops with
  | [] => lift (ret results)
  | op :: ops' =>
      r <- processOperation img op jobID ;;
      match r with
      | Err _ => processOperations img ops' jobID results   (* continue *)
      | Ok result => processOperations img ops' jobID (results ++ [result])
      end
  end.

(* ProcessJob: the job behind the pointer after the call, and the
   error returned. *)
Definition ProcessJob (job : Job.t) : P (Job.t * option string) :=
  startTime <- lift Now ;;
  r <- lift (downloadImage (Job.ImageURL job)) ;;
  match r with
  | Err e => lift (ret (job, Some ("failed to download image: " +:+ e)))
  | Ok img =>
      results <- processOperations img (Job.Operations job) (Job.ID job) [] ;;
      let job := Job.with_Results results job in
      let job := Job.with_Status StatusCompleted job in
      now <- lift Now ;;
      let job := Job.with_CompletedAt (Some now) job in
      _ <- lift (Since startTime) ;;
      lift (ret (job, None))
  end.

(** *** services/worker/main.go *)

(* saveJob of the worker: a failed write is logged, nothing else. *)
Definition worker_saveJob (job : Job.t) : M unit :=
  _ <~ rdbSet ("job:" +:+ Job.ID job) job (24 * Hour) ;;
  ret tt.

(** What [json.Unmarshal(msg.Body, &job)] makes of a message body. *)
Inductive Delivery :=
  | Malformed (e : string)
  | Envelope (job : Job.t).

(* main, loop body: "Update job to in_progress" *)
Definition markInProgress (job : Job.t) : M Job.t :=
  let job := Job.with_Status StatusInProgress job in
  _ <~ worker_saveJob job ;;
  ret job.

(* main, loop body: "Process the image" and "Save final job state" *)
Definition processAndSave (job : Job.t) : P Job.t :=
  r <- ProcessJob job ;;
  match r with
  | (job, Some err) =>
      let job := Job.with_Status StatusFailed job in
      let job := Job.with_Error err job in
      _ <- lift (worker_saveJob job) ;;
      lift (ret job)                                 (* continue *)
  | (job, None) =>
      _ <- lift (worker_saveJob job) ;;
      lift (ret job)
  end.

(* main, the body of [for msg := range msgs]; the value is the job
   record when the iteration ends, if the body was parsed. *)
Definition handleDelivery (msg : Delivery) : P (option Job.t) :=
  match msg with
  | Malformed _ => lift (ret None)                   (* continue *)
  | Envelope job =>
      job <- lift (markInProgress job) ;;
      job <- processAndSave job ;;
      lift (ret (Some job))
  end.

(* main, [for msg := range msgs]; a panic leaves the loop and the
   process, the messages that follow are not handled. *)
Fixpoint consume (msgs : list Delivery) : P unit :=
  match msgs with
  | [] => lift (ret tt)
  | msg :: rest => _ <- handleDelivery msg ;; consume rest
  end.

(** *** services/api/main.go *)

Record CreateJobRequest := {
  req_ImageURL : string;                      (* image_url *)
  req_Operations : list ImageOperation.t      (* operations *)
}.

Inductive HttpResponse :=
  | HttpError (msg : string) (code : Z)             (* http.Error *)
  | JobResponse (message : string) (job : Job.t).   (* 200, message and job *)

(* saveJob of the API: the error is returned. *)
Definition api_saveJob (job : Job.t) : M (option string) :=
  rdbSet ("job:" +:+ Job.ID job) job (24 * Hour).

(* handleCreateJob; [body] is what the JSON decoder makes of r.Body. *)
Definition handleCreateJob (method : string) (body : result CreateJobRequest)
  : M HttpResponse :=
  if negb (String.eqb method "POST") then
    ret (HttpError "only POST allowed" 405)
  else
    match body with
    | Err _ => ret (HttpError "invalid request body" 400)
    | Ok req =>
        if String.eqb (req_ImageURL req) "" then
          ret (HttpError "image_url is required" 400)
        else
          let operations :=
            if (length (req_Operations req) =? 0)%nat then
              (* Default operation: resize to 800x600 *)
              [ImageOperation.mk OpResize 800 600 FormatJPEG 90 "" ""]
            else req_Operations req in
          jobID <~ uuidNew ;;
          now <~ Now ;;
          let job := Job.mk jobID StatusPending (req_ImageURL req)
                            operations now None [] "" in
          err <~ api_saveJob job ;;
          match err with
          | Some _ => ret (HttpError "failed to save job" 500)
          | None =>
              err <~ Publish job ;;
              match err with
              | Some _ => ret (HttpError "failed to publish job" 500)
              | None => ret (JobResponse "Job created successfully" job)
              end
          end
    end.

End Pipeline.

Arguments Event {_}.
Arguments State {_}.
Arguments M {_} A.
Arguments P {_} A.

(** ** A test double for the imaging capability

    Rasters reduced to their bounds.  [Resize] gives the bounds that
    imaging.Resize documents: the requested ones, a zero side filled in
    from the aspect ratio of the source (rounded to nearest, at least 1),
    and the empty raster for negative or all-zero requests or an empty
    source; it panics as image.NewNRGBA does when the bytes of a raster
    it allocates, four per pixel, do not fit an int.  The encoders write
    a magic number and the bounds, in two bytes a side for JPEG and four
    for PNG; the JPEG encoder also writes the scale of its quantization
    tables, which is where the quality goes.  They refuse what the real
    ones refuse: a JPEG side of 65536 or more, a PNG side of zero or of
    2^32 or more.  [Decode] reads both back. *)

Definition hugeRaster (width height : Z) : bool :=
  2 ^ 63 <=? 4 * width * height.

Definition bounds_Resize (img : Z * Z) (width height : Z) (_ : ResampleFilter)
  : Outcome (Z * Z) :=
  let '(srcW, srcH) := img in
  if (width <? 0) || (height <? 0) then Done (0, 0)
  else if (width =? 0) && (height =? 0) then Done (0, 0)
  else if (srcW <=? 0) || (srcH <=? 0) then Done (0, 0)
  else
    let '(dstW, dstH) :=
      if width =? 0 then
        (Z.max 1 ((2 * height * srcW + srcH) / (2 * srcH)), height)
      else if height =? 0 then
        (width, Z.max 1 ((2 * width * srcH + srcW) / (2 * srcW)))
      else (width, height) in
    if hugeRaster dstW srcH || hugeRaster dstW dstH then
      Panic "image: NewNRGBA Rectangle has huge or negative dimensions"
    else Done (dstW, dstH).

Definition byteOf (z : Z) : Byte.byte :=
  default Byte.x00 (Byte.of_N (Z.to_N (z mod 256))).

Definition bigEndian2 (z : Z) : Bytes := [byteOf (z / 256); byteOf z].

Definition bigEndian4 (z : Z) : Bytes :=
  [byteOf (z / 16777216); byteOf (z / 65536); byteOf (z / 256); byteOf z].

Definition number (b : Bytes) : Z :=
  fold_left (fun acc x => acc * 256 + Z.of_N (Byte.to_N x)) b 0.

(* the scale of the quantization tables, as jpeg.Encode derives it from
   the quality *)
Definition jpegScale (quality : Z) : Z :=
  let quality := if quality <? 1 then 1
                 else if 100 <? quality then 100 else quality in
  if quality <? 50 then 5000 / quality else 200 - quality * 2.

Definition bounds_jpegEncode (img : Z * Z) (quality : Z) : result Bytes :=
  if (65536 <=? fst img) || (65536 <=? snd img)
  then Err "jpeg: image is too large to encode"
  else Ok ([Byte.xff; Byte.xd8] ++ bigEndian2 (jpegScale quality)
             ++ bigEndian2 (fst img) ++ bigEndian2 (snd img)).

Definition bounds_pngEncode (img : Z * Z) : result Bytes :=
  if (fst img <=? 0) || (snd img <=? 0)
     || (2 ^ 32 <=? fst img) || (2 ^ 32 <=? snd img)
  then Err ("png: invalid format: invalid image size: "
              +:+ pretty (fst img) +:+ "x" +:+ pretty (snd img))
  else Ok ([Byte.x89; Byte.x50] ++ bigEndian4 (fst img) ++ bigEndian4 (snd img)).

Definition bounds_Decode (b : Bytes) : result (Z * Z) :=
  match b with
  | [m1; m2; _; _; w1; w2; h1; h2] =>
      if Byte.eqb m1 Byte.xff && Byte.eqb m2 Byte.xd8
      then Ok (number [w1; w2], number [h1; h2])
      else Err ErrFormat
  | [m1; m2; w1; w2; w3; w4; h1; h2; h3; h4] =>
      if Byte.eqb m1 Byte.x89 && Byte.eqb m2 Byte.x50
      then Ok (number [w1; w2; w3; w4], number [h1; h2; h3; h4])
      else Err ErrFormat
  | _ => Err ErrFormat
  end.

Definition BoundsImaging : Imaging := {|
  Image := Z * Z;
  Decode := bounds_Decode;
  Resize := bounds_Resize;
  Dx := fst;
  Dy := snd;
  jpegEncode := bounds_jpegEncode;
  pngEncode := bounds_pngEncode
|}.

(** A world in which every store answers, and every URL serves a JPEG
    of 100 x 80. *)
Definition calm : World := {|
  http_do := fun _ =>
    Response 200 [Byte.xff; Byte.xd8; Byte.x00; Byte.x14;
                  Byte.x00; Byte.x64; Byte.x00; Byte.x50];
  get_object_err := fun _ => None;
  uuid_new := fun n =>
    "f81d4fa" +:+ pretty (Z.of_nat n) +:+ "-7dec-11d0-a765-00a0c91e6bf6";
  clock := fun n => Z.of_nat n;
  put_object_err := fun _ => None;
  redis_set_err := fun _ => None;
  publish_err := fun _ => None
|}.

(** The same world, except that every URL answers 404. *)
Definition missing : World := {|
  http_do := fun _ => Response 404 [];
  get_object_err := get_object_err calm;
  uuid_new := uuid_new calm;
  clock := clock calm;
  put_object_err := put_object_err calm;
  redis_set_err := redis_set_err calm;
  publish_err := publish_err calm
|}.

(** The same world as [calm], except that the second upload fails. *)
Definition flaky : World := {|
  http_do := http_do calm;
  get_object_err := get_object_err calm;
  uuid_new := uuid_new calm;
  clock := clock calm;
  put_object_err := fun n => if (n =? 1)%nat then Some "connection reset" else None;
  redis_set_err := redis_set_err calm;
  publish_err := publish_err calm
|}.

Definition start `{Imaging} : State := mkState ∅ ∅ [] 0 0 0 0 0 [].

(** A raster of the test double. *)
Definition raster (width height : Z) : @Image BoundsImaging := (width, height).

(** ** Observations on a trace *)

(** The calls of applyOperation: the raster given, the operation, the
    raster obtained. *)
Definition applied `{Imaging} (tr : list Event)
  : list (Image * ImageOperation.t * Image) :=
  flat_map (fun e => match e with
                     | EvApply input op output => [(input, op, output)]
                     | _ => []
                     end) tr.

(** The writes to the status store: the key and the status written. *)
Definition statusWrites `{Imaging} (tr : list Event) : list (string * string) :=
  flat_map (fun e => match e with
                     | EvSet key job _ => [(key, Job.Status job)]
                     | _ => []
                     end) tr.

(** The keys under which an upload was attempted. *)
Definition uploads `{Imaging} (tr : list Event) : list string :=
  flat_map (fun e => match e with
                     | EvPut key _ _ => [key]
                     | _ => []
                     end) tr.

(** The key that "Generate output key" leaves in the operation, when it
    runs in state [s]. *)
Definition keyFor `{Imaging} (w : World) (op : ImageOperation.t)
    (jobID : string) (s : State) : string :=
  if String.eqb (ImageOperation.OutputKey op) "" then
    "processed/" +:+ jobID +:+ "/" +:+ ImageOperation.Type_ op +:+ "_"
      +:+ String.substring 0 8 (uuid_new w (uuids s))
  else ImageOperation.OutputKey op.

(** ** The design document's wording, for comparison with the code *)

(** "each operation's output becomes the next operation's input" *)
Definition cumulative `{Imaging}
    (calls : list (Image * ImageOperation.t * Image)) : Prop :=
  forall (i : nat) a b,
    calls !! i = Some a -> calls !! S i = Some b -> b.1.1 = a.2.

(** "no record ever reverts from a terminal state": in a sequence of
    writes, a write of a terminal status to a key is never followed by a
    write of another kind of status to that key. *)
Definition neverReverts (writes : list (string * string)) : Prop :=
  forall (i j : nat) key st st',
    (i < j)%nat ->
    writes !! i = Some (key, st) -> is_terminal st = true ->
    writes !! j = Some (key, st') -> is_terminal st' = true.

(** The parameter ranges of the data model: a kind among resize, format
    and watermark, sides that are zero (unconstrained) or positive, a
    format among jpeg, png and webp, a quality of 1 to 100 or 0 for the
    default. *)
Definition validParameters (op : ImageOperation.t) : bool :=
  (String.eqb (ImageOperation.Type_ op) OpResize
   || String.eqb (ImageOperation.Type_ op) OpFormat
   || String.eqb (ImageOperation.Type_ op) OpWatermark)
  && (0 <=? ImageOperation.Width op) && (0 <=? ImageOperation.Height op)
  && (String.eqb (ImageOperation.Format op) FormatJPEG
      || String.eqb (ImageOperation.Format op) FormatPNG
      || String.eqb (ImageOperation.Format op) FormatWebP)
  && (0 <=? ImageOperation.Quality op) && (ImageOperation.Quality op <=? 100).

(** ** Sample inputs *)

Definition resizeSmall : ImageOperation.t :=
  ImageOperation.mk OpResize 50 40 FormatJPEG 0 "" "".

Definition resizeTiny : ImageOperation.t :=
  ImageOperation.mk OpResize 20 10 FormatPNG 0 "" "".

(* out of every documented range *)
Definition outOfRange : ImageOperation.t :=
  ImageOperation.mk "rotate" (-5) (-7) "bmp" 1000 "" "".

(* the operation of validate-system.sh *)
Definition testThumbnail : ImageOperation.t :=
  ImageOperation.mk OpResize 200 200 FormatJPEG 85 "" "test-thumbnail".

Definition jobOf (ops : list ImageOperation.t) : Job.t :=
  Job.mk "j1" StatusPending "http://example.org/a.png" ops 0 None [] "".

(** ** The status service (src/unnamed/part_002) *)

(* strings.Split(s, sep) for a separator of one character *)
Fixpoint Split (s : string) (sep : Ascii.ascii) : list string :=
  match s with
  | "" => [""]
  | String c s' =>
      if Ascii.eqb c sep then "" :: Split s' sep
      else match Split s' sep with
           | part :: parts => String c part :: parts
           | [] => [String c ""]
           end
  end.

(** What getJob returns: the job, the error [redis.Nil], or another
    error. *)
Inductive GetJobResult :=
  | JobFound (job : Job.t)
  | RedisNil
  | GetJobError (e : string).

Inductive StatusResponse :=
  | StatusError (msg : string) (code : Z)     (* http.Error *)
  | StatusJob (job : Job.t).                  (* 200, the job *)

Section Status.
Context `{Imaging}.

(* getJob.  [failure] is the error of this call of rdb.Get other than
   redis.Nil, if there is one.  The value under a key is what saveJob
   marshalled, so json.Unmarshal gives the job back. *)
Definition getJob (failure : option string) (jobID : string) (s : State)
  : GetJobResult :=
  match failure with
  | Some e => GetJobError e
  | None =>
      match rdb s !! ("job:" +:+ jobID) with
      | None => RedisNil
      | Some entry => JobFound (envelope entry)
      end
  end.

(* handleGetJob *)
Definition handleGetJob (failure : option string) (method path : string)
    (s : State) : StatusResponse :=
  if negb (String.eqb method "GET") then
    StatusError "only GET allowed" 405
  else
    let pathParts := Split path "/"%char in
    if negb (length pathParts =? 3)%nat then
      StatusError "invalid job ID" 400
    else
      let jobID := nth 2 pathParts "" in
      match getJob failure jobID s with
      | RedisNil => StatusError "job not found" 404
      | GetJobError _ => StatusError "failed to get job" 500
      | JobFound job => StatusJob job
      end.

End Status.

(** ** Start-up: waitForRedis, pkg/storage/minio.go *)

Definition Second : Z := 1000000000.

(* getEnv over the environment of the process *)
Definition getEnv (environ : gmap string string) (key fallback : string)
  : string :=
  match environ !! key with
  | Some val => val
  | None => fallback
  end.

(** The result of a wait: the error returned, the attempts made and the
    time slept. *)
Record Waited := { waitErr : option string; attempts : nat; slept : Z }.

(* waitForRedis, the loop from attempt [i] with [remaining] attempts to
   go; [ping i] is the error of the i-th rdb.Ping, if it fails. *)
Fixpoint waitForRedis_loop (ping : nat -> option string)
    (maxRetries : nat) (retryDelay : Z) (remaining i : nat) (sleep : Z)
  : Waited :=
  match remaining with
  | O =>
      Build_Waited
        (Some ("Redis not ready after " +:+ pretty (Z.of_nat maxRetries)
                 +:+ " attempts"))
        i sleep
  | S remaining' =>
      match ping i with
      | None => Build_Waited None (S i) sleep
      | Some _ =>
          waitForRedis_loop ping maxRetries retryDelay remaining' (S i)
            (sleep + retryDelay)
      end
  end.

(* waitForRedis *)
Definition waitForRedis (ping : nat -> option string) : Waited :=
  let maxRetries := 30%nat in
  let retryDelay := Second in
  waitForRedis_loop ping maxRetries retryDelay maxRetries 0 0.

(** The object-store server at start-up, and what it decides. *)
Record Minio := {
  buckets : gset string;
  existsCalls : nat;       (* BucketExists calls so far *)
  makeCalls : nat          (* MakeBucket calls so far *)
}.

Record Boot := {
  environ : gmap string string;
  minio_new_err : string -> option string;   (* minio.New, by endpoint *)
  bucket_exists_err : nat -> option string;  (* BucketExists *)
  make_bucket_err : nat -> option string     (* MakeBucket *)
}.

Record Client := {
  clientEndpoint : string;
  clientAccessKey : string;
  clientSecretKey : string;
  clientSecure : bool
}.

Record MinIOClient := {
  MinIO_Client : Client;
  BucketName : string;
  Endpoint : string
}.

(* ensureBucket *)
Definition ensureBucket (b : Boot) (c : MinIOClient) (m : Minio)
  : option string * Minio :=
  match bucket_exists_err b (existsCalls m) with
  | Some e =>
      (Some ("failed to check bucket existence: " +:+ e),
       Build_Minio (buckets m) (S (existsCalls m)) (makeCalls m))
  | None =>
      let exists_ := bool_decide (BucketName c ∈ buckets m) in
      if negb exists_ then
        match make_bucket_err b (makeCalls m) with
        | Some e =>
            (Some ("failed to create bucket: " +:+ e),
             Build_Minio (buckets m) (S (existsCalls m)) (S (makeCalls m)))
        | None =>
            (None,
             Build_Minio ({[BucketName c]} ∪ buckets m) (S (existsCalls m))
                         (S (makeCalls m)))
        end
      else
        (None, Build_Minio (buckets m) (S (existsCalls m)) (makeCalls m))
  end.

(* NewMinIOClient *)
Definition NewMinIOClient (b : Boot) (m : Minio)
  : result MinIOClient * Minio :=
  let endpoint := getEnv (environ b) "MINIO_ENDPOINT" "localhost:9000" in
  let accessKey := getEnv (environ b) "MINIO_ACCESS_KEY" "minioadmin" in
  let secretKey := getEnv (environ b) "MINIO_SECRET_KEY" "minioadmin123" in
  let bucketName := getEnv (environ b) "MINIO_BUCKET" "images" in
  let useSSL := false in
  match minio_new_err b endpoint with
  | Some e => (Err ("failed to create MinIO client: " +:+ e), m)
  | None =>
      let client :=
        Build_MinIOClient (Build_Client endpoint accessKey secretKey useSSL)
                          bucketName endpoint in
      match ensureBucket b client m with
      | (Some e, m') => (Err ("failed to ensure bucket: " +:+ e), m')
      | (None, m') => (Ok client, m')
      end
  end.

(* WaitForMinIO, the loop with [remaining] attempts to go, [tried]
   already made. *)
Fixpoint WaitForMinIO_loop (b : Boot) (maxRetries : nat) (retryDelay : Z)
    (remaining tried : nat) (sleep : Z) (m : Minio) : Waited * Minio :=
  match remaining with
  | O =>
      (Build_Waited
         (Some ("MinIO not ready after " +:+ pretty (Z.of_nat maxRetries)
                  +:+ " attempts"))
         tried sleep, m)
  | S remaining' =>
      match NewMinIOClient b m with
      | (Ok _, m') => (Build_Waited None (S tried) sleep, m')
      | (Err _, m') =>
          WaitForMinIO_loop b maxRetries retryDelay remaining' (S tried)
            (sleep + retryDelay) m'
      end
  end.

(* WaitForMinIO *)
Definition WaitForMinIO (b : Boot) (m : Minio) : Waited * Minio :=
  let maxRetries := 30%nat in
  let retryDelay := Second in
  WaitForMinIO_loop b maxRetries retryDelay maxRetries 0 0 m.

(** The number of occurrences of a character in a string. *)
Fixpoint occurrences (c : Ascii.ascii) (s : string) : nat :=
  match s with
  | "" => 0
  | String c' s' => (if Ascii.eqb c' c then 1 else 0) + occurrences c s'
  end.

(** The keys of the two status writes of every parsed envelope. *)
Definition deliveryKeys (msgs : list Delivery) : list string :=
  flat_map (fun msg => match msg with
                       | Envelope job => ["job:" +:+ Job.ID job;
                                          "job:" +:+ Job.ID job]
                       | Malformed _ => []
                       end) msgs.

(** [ops'] picks operations out of [ops], keeping their order. *)
Definition inOrder (ops' ops : list ImageOperation.t) : Prop :=
  sublist ops' ops.

(** The result [r] is a result of the operation [op]: it carries [op]
    with the output key filled in, and its format. *)
Definition resultOf (r : ProcessedImage.t) (op : ImageOperation.t) : Prop :=
  ProcessedImage.Operation r
    = ImageOperation.with_OutputKey (ProcessedImage.OutputKey r) op /\
  ProcessedImage.Format r = ImageOperation.Format op.

(** A start-up in which the object store answers from the third attempt
    on, with an empty environment. *)
Definition slowBoot : Boot := {|
  environ := ∅;
  minio_new_err := fun _ => None;
  bucket_exists_err := fun n =>
    if (n <? 2)%nat then Some "connection refused" else None;
  make_bucket_err := fun _ => None
|}.

Definition noBuckets : Minio := Build_Minio ∅ 0 0.

(** The world [calm], except that the status store refuses every write
    after the first. *)
Definition lossy : World := {|
  http_do := http_do calm;
  get_object_err := get_object_err calm;
  uuid_new := uuid_new calm;
  clock := clock calm;
  put_object_err := put_object_err calm;
  redis_set_err := fun n => if (n =? 0)%nat then None else Some "READONLY";
  publish_err := publish_err calm
|}.

(** The world [calm], except that the broker refuses every publish. *)
Definition noBroker : World := {|
  http_do := http_do calm;
  get_object_err := get_object_err calm;
  uuid_new := uuid_new calm;
  clock := clock calm;
  put_object_err := put_object_err calm;
  redis_set_err := redis_set_err calm;
  publish_err := fun _ => Some "channel closed"
|}.

(* a resize to 70000 x 1, too wide for the JPEG encoder *)
Definition tooWide : ImageOperation.t :=
  ImageOperation.mk OpResize 70000 1 FormatJPEG 0 "" "".

(* a watermark operation that also carries sides *)
Definition stamp : ImageOperation.t :=
  ImageOperation.mk OpWatermark 300 200 FormatPNG 0 "draft" "".

Definition toWebP : ImageOperation.t :=
  ImageOperation.mk OpFormat 0 0 FormatWebP 75 "" "out/a".

(* a resize to a width that no raster has *)
Definition hugeOp : ImageOperation.t :=
  ImageOperation.mk OpResize (2 ^ 62) 600 FormatJPEG 0 "" "".

(* two operations whose keys meet: the output key of the second is the
   key under which the first is stored *)
Definition photoPng : ImageOperation.t :=
  ImageOperation.mk OpResize 50 40 FormatPNG 0 "" "photo".

Definition photoJpg : ImageOperation.t :=
  ImageOperation.mk OpResize 20 10 FormatJPEG 0 "" "photo.png".

(* a job whose source is an object key *)
Definition storedSourceJob : Job.t :=
  Job.mk "j2" StatusPending "uploads/a.png" [resizeSmall] 0 None [] "".

(** * Properties *)

Section Properties.
Context `{Imaging}.
Variable w : World.

(** ** Traces *)

Lemma applied_app (t1 t2 : list Event) :
  applied (t1 ++ t2) = applied t1 ++ applied t2.
Proof. unfold applied. apply flat_map_app. Qed.

Lemma statusWrites_app (t1 t2 : list Event) :
  statusWrites (t1 ++ t2) = statusWrites t1 ++ statusWrites t2.
Proof. unfold statusWrites. apply flat_map_app. Qed.

Lemma uploads_app (t1 t2 : list Event) :
  uploads (t1 ++ t2) = uploads t1 ++ uploads t2.
Proof. unfold uploads. apply flat_map_app. Qed.

(** ** Strings *)

Lemma append_eq_self (s t : string) : s +:+ t = s -> t = "".
Proof.
  induction s as [|c s IH]; simpl; intros E; [exact E|].
  injection E as E. auto.
Qed.

Lemma fileExtension_jpeg : fileExtension FormatJPEG = ".jpg".
Proof. reflexivity. Qed.

Lemma fileExtension_other (format : string) :
  format <> FormatJPEG -> fileExtension format = "." +:+ format.
Proof.
  intros Hne. unfold fileExtension.
  destruct (String.eqb ("." +:+ format) ".jpeg") eqn:E; [|reflexivity].
  apply String.eqb_eq in E. simpl in E. injection E as E. contradiction.
Qed.

Lemma fileExtension_nonempty (format : string) : fileExtension format <> "".
Proof.
  unfold fileExtension.
  destruct (String.eqb ("." +:+ format) ".jpeg"); simpl; discriminate.
Qed.

(** ** Source acquisition reads the bucket and changes nothing *)

Lemma downloadImage_state (url : string) (s : State) :
  (downloadImage w url s).2 = s.
Proof.
  unfold downloadImage, downloadFromHTTP, downloadFromStorage, ret.
  repeat case_match; reflexivity.
Qed.

Lemma downloadImage_bucket (url : string) (s s' : State) :
  bucket s' = bucket s ->
  (downloadImage w url s').1 = (downloadImage w url s).1.
Proof.
  intros E. unfold downloadImage.
  destruct (String.prefix "http://" url || String.prefix "https://" url).
  - unfold downloadFromHTTP, ret. repeat case_match; reflexivity.
  - unfold downloadFromStorage. rewrite E.
    repeat case_match; reflexivity.
Qed.

(** ** One operation *)

(** applyOperation returns a raster or panics; it returns no error. *)
Lemma applyOperation_cases (img : Image) (op : ImageOperation.t) :
  (exists out, applyOperation img op = Done (Ok out)) \/
  (exists msg, applyOperation img op = Panic msg).
Proof.
  unfold applyOperation.
  destruct (if String.eqb (ImageOperation.Type_ op) OpResize && _ then _
            else Done img) as [out|msg]; eauto.
Qed.

Ltac run :=
  unfold processOperation, generateOutputKey, uploadResult, PutObject,
    Since, Now, uuidNew, emit, pbind, lift, call, bind, ret in *.

(** Whatever its outcome, processOperation leaves the status store and
    the queue alone.  It calls applyOperation on the raster it was given:
    when that call returns it is recorded, when it panics nothing else
    happens. *)
Lemma processOperation_frame (img : Image) (op : ImageOperation.t)
    (jobID : string) (s : State) :
  let r := processOperation w img op jobID s in
  rdb r.2 = rdb s /\ sets r.2 = sets s /\ queue r.2 = queue s /\
  statusWrites (trace r.2) = statusWrites (trace s) /\
  ((exists out, applyOperation img op = Done (Ok out) /\
                returned r.1 = true /\
                applied (trace r.2) = applied (trace s) ++ [(img, op, out)])
   \/
   (exists msg, applyOperation img op = Panic msg /\
                r.1 = Panic msg /\
                applied (trace r.2) = applied (trace s) /\
                uploads (trace r.2) = uploads (trace s) /\
                bucket r.2 = bucket s)).
Proof.
  destruct (applyOperation_cases img op) as [[out Hout]|[msg Hout]];
    run; rewrite Hout; simpl.
  - repeat case_match; simplify_eq; simpl;
      rewrite ?statusWrites_app, ?applied_app; simpl;
      rewrite ?app_nil_r; repeat split; left; eauto 10.
  - repeat split. right. eauto 10.
Qed.

(** What a successful processOperation has done. *)
Lemma processOperation_Ok (img : Image) (op : ImageOperation.t)
    (jobID : string) (s s' : State) (res : ProcessedImage.t) :
  processOperation w img op jobID s = (Done (Ok res), s') ->
  exists out buf,
    let key := keyFor w op jobID s in
    let url := key +:+ fileExtension (ImageOperation.Format op) in
    let contentType := "image/" +:+ ImageOperation.Format op in
    applyOperation img op = Done (Ok out) /\
    runEncoder (encoderFor op) out = Ok buf /\
    put_object_err w (puts s) = None /\
    ProcessedImage.Operation res = ImageOperation.with_OutputKey key op /\
    ProcessedImage.OutputKey res = key /\
    ProcessedImage.OutputURL res = url /\
    ProcessedImage.Format res = ImageOperation.Format op /\
    ProcessedImage.Width res = Dx out /\
    ProcessedImage.Height res = Dy out /\
    bucket s' = <[url := Build_Object buf contentType]> (bucket s) /\
    uuids s' = (if String.eqb (ImageOperation.OutputKey op) ""
                then S (uuids s) else uuids s) /\
    trace s' = trace s ++ [EvApply img op out; EvPut url contentType true].
Proof.
  destruct (applyOperation_cases img op) as [[out Hout]|[msg Hout]];
    unfold keyFor; run; rewrite Hout; simpl; [|discriminate].
  destruct op as [ty wd ht fmt q wm k]; simpl.
  unfold encoderFor; simpl.
  destruct (String.eqb k "") eqn:Ek; simpl;
    (destruct (runEncoder _ out) as [buf|e] eqn:Eenc; simpl; [|discriminate]);
    (destruct (put_object_err w (puts s)) eqn:Eput; simpl; [discriminate|]);
    intros E; simplify_eq; simpl; exists out, buf;
    rewrite <- ?app_assoc; simpl; unfold ImageOperation.with_OutputKey; simpl;
    repeat split; try reflexivity; try assumption.
Qed.

(** A processOperation that returns an error failed in uploadResult, at
    the encoder or at the object store: no parameter is ever rejected. *)
Lemma processOperation_Err (img : Image) (op : ImageOperation.t)
    (jobID : string) (s s' : State) (e : string) :
  processOperation w img op jobID s = (Done (Err e), s') ->
  exists out,
    applyOperation img op = Done (Ok out) /\
    ((exists e', runEncoder (encoderFor op) out = Err e' /\
        e = "failed to upload result: " +:+ "failed to encode image: " +:+ e')
     \/
     (exists e', put_object_err w (puts s) = Some e' /\
        e = "failed to upload result: " +:+ "failed to upload to storage: "
              +:+ e')).
Proof.
  destruct (applyOperation_cases img op) as [[out Hout]|[msg Hout]];
    run; rewrite Hout; simpl; [|discriminate].
  destruct op as [ty wd ht fmt q wm k]; simpl.
  unfold encoderFor; simpl.
  destruct (String.eqb k "") eqn:Ek; simpl;
    (destruct (runEncoder _ out) as [buf|e0] eqn:Eenc; simpl;
     [ destruct (put_object_err w (puts s)) eqn:Eput; simpl;
       [ intros E; simplify_eq; exists out; split; [reflexivity|];
         right; eauto
       | discriminate ]
     | intros E; simplify_eq; exists out; split; [reflexivity|];
       left; eauto ]).
Qed.

(** ** The loop over the operations *)

Lemma processOperations_cons (img : Image) (op : ImageOperation.t)
    (ops : list ImageOperation.t) (jobID : string)
    (results : list ProcessedImage.t) (s : State) :
  processOperations w img (op :: ops) jobID results s =
  match processOperation w img op jobID s with
  | (Done (Ok result), s1) =>
      processOperations w img ops jobID (results ++ [result]) s1
  | (Done (Err _), s1) => processOperations w img ops jobID results s1
  | (Panic msg, s1) => (Panic msg, s1)
  end.
Proof.
  simpl. unfold pbind.
  destruct (processOperation w img op jobID s) as [[[res|e]|msg] s1];
    reflexivity.
Qed.

Lemma processOperations_length (img : Image) (ops : list ImageOperation.t)
    (jobID : string) (results results' : list ProcessedImage.t)
    (s : State) :
  (processOperations w img ops jobID results s).1 = Done results' ->
  (length results' <= length results + length ops)%nat.
Proof.
  revert results s.
  induction ops as [|op ops IH]; intros results s.
  - simpl. intros E. injection E as <-. lia.
  - rewrite processOperations_cons.
    destruct (processOperation w img op jobID s) as [[[res|e]|msg] s1];
      simpl; intros E.
    + apply IH in E. rewrite length_app in E. simpl in E. lia.
    + apply IH in E. lia.
    + discriminate.
Qed.

Lemma processOperations_frame (img : Image) (ops : list ImageOperation.t)
    (jobID : string) (results : list ProcessedImage.t) (s : State) :
  let s' := (processOperations w img ops jobID results s).2 in
  rdb s' = rdb s /\ sets s' = sets s /\ queue s' = queue s /\
  statusWrites (trace s') = statusWrites (trace s).
Proof.
  revert results s.
  induction ops as [|op ops IH]; intros results s.
  - simpl. auto.
  - rewrite processOperations_cons.
    pose proof (processOperation_frame img op jobID s)
      as (Hr & Hs & Hq & Ht & _).
    destruct (processOperation w img op jobID s) as [[[res|e]|msg] s1];
      simpl in Hr, Hs, Hq, Ht.
    + destruct (IH (results ++ [res]) s1) as (E1 & E2 & E3 & E4).
      simpl in *. rewrite E1, E2, E3, E4. auto.
    + destruct (IH results s1) as (E1 & E2 & E3 & E4).
      simpl in *. rewrite E1, E2, E3, E4. auto.
    + simpl. auto.
Qed.

(** The calls of applyOperation that return in the loop are on [img],
    one per operation in list order; the loop goes through all the
    operations unless applyOperation panics in one. *)
Lemma processOperations_applied (img : Image) (ops : list ImageOperation.t)
    (jobID : string) (results : list ProcessedImage.t) (s : State) :
  let r := processOperations w img ops jobID results s in
  exists calls,
    applied (trace r.2) = applied (trace s) ++ calls /\
    Forall2 (fun op c => c.1.1 = img /\ c.1.2 = op /\
                         applyOperation img op = Done (Ok c.2))
            (take (length calls) ops) calls /\
    match r.1 with
    | Done _ => length calls = length ops
    | Panic msg =>
        exists op, ops !! length calls = Some op /\
                   applyOperation img op = Panic msg
    end.
Proof.
  cbv zeta. revert results s.
  induction ops as [|op ops IH]; intros results s.
  - exists []. simpl. rewrite app_nil_r. repeat split. constructor.
  - rewrite processOperations_cons.
    pose proof (processOperation_frame img op jobID s)
      as (_ & _ & _ & _ & Hcase).
    destruct (processOperation w img op jobID s) as [r s1].
    simpl in Hcase.
    destruct Hcase as [(out & Hout & Hret & Ha)|(msg & Hout & -> & Ha & _)].
    + set (R := match r with
                  | Done (Ok result) =>
                      processOperations w img ops jobID (results ++ [result]) s1
                  | Done (Err _) => processOperations w img ops jobID results s1
                  | Panic msg => (Panic msg, s1)
                  end).
      assert (exists calls,
                 applied (trace R.2) = applied (trace s1) ++ calls /\
                 Forall2 (fun op c => c.1.1 = img /\ c.1.2 = op /\
                            applyOperation img op = Done (Ok c.2))
                         (take (length calls) ops) calls /\
                 match R.1 with
                 | Done _ => length calls = length ops
                 | Panic msg =>
                     exists op, ops !! length calls = Some op /\
                                applyOperation img op = Panic msg
                 end)
        as (calls & Hc & HF & Hend)
        by (subst R; destruct r as [[res|e]|msg];
            [apply IH | apply IH | discriminate]).
      exists ((img, op, out) :: calls). split; [|split].
      * rewrite Hc, Ha, <- app_assoc. reflexivity.
      * simpl. constructor; auto.
      * simpl. destruct R.1; [lia | exact Hend].
    + exists []. simpl. rewrite app_nil_r.
      split; [exact Ha|]. split; [constructor|]. eauto.
Qed.

(** ** ProcessJob *)

Lemma downloadImage_after_Now (url : string) (s : State) :
  downloadImage w url (Now w s).2
  = ((downloadImage w url s).1, (Now w s).2).
Proof.
  rewrite (surjective_pairing (downloadImage w url (Now w s).2)).
  rewrite downloadImage_state.
  f_equal. apply downloadImage_bucket. reflexivity.
Qed.

Lemma ProcessJob_Err (job : Job.t) (s : State) (e : string) :
  (downloadImage w (Job.ImageURL job) s).1 = Err e ->
  ProcessJob w job s
  = (Done (job, Some ("failed to download image: " +:+ e)), (Now w s).2).
Proof.
  intros Hd. unfold ProcessJob, pbind, lift.
  change (Now w s) with (clock w (ticks s), (Now w s).2). cbv beta iota.
  rewrite downloadImage_after_Now, Hd. reflexivity.
Qed.

(** ProcessJob after a successful acquisition: the loop, then two
    readings of the clock. *)
Lemma ProcessJob_Ok (job : Job.t) (s : State) (img : Image) :
  (downloadImage w (Job.ImageURL job) s).1 = Ok img ->
  ProcessJob w job s
  = match processOperations w img (Job.Operations job) (Job.ID job) []
            (Now w s).2 with
    | (Done results, s1) =>
        (Done (Job.with_CompletedAt (Some (clock w (ticks s1)))
                 (Job.with_Status StatusCompleted
                    (Job.with_Results results job)),
               None),
         (Now w (Now w s1).2).2)
    | (Panic msg, s1) => (Panic msg, s1)
    end.
Proof.
  intros Hd. unfold ProcessJob, pbind, lift.
  assert (HN : Now w s = (clock w (ticks s), (Now w s).2)) by reflexivity.
  rewrite HN at 1. cbv beta iota.
  rewrite downloadImage_after_Now, Hd.
  destruct (processOperations w img (Job.Operations job) (Job.ID job) []
              (Now w s).2) as [[results|msg] s1]; reflexivity.
Qed.

(** ** Operations and the source raster *)

(** C1, as the code has it: after a successful acquisition ProcessJob
    calls applyOperation on the operations in list order, and every call
    is given the acquired source raster, never the output of another
    operation.  It goes through all the operations, unless the imaging
    library panics in one of them: the worker ends there. *)
Theorem ProcessJob_operations_on_source (job : Job.t) (s : State)
    (img : Image) :
  (downloadImage w (Job.ImageURL job) s).1 = Ok img ->
  exists calls,
    applied (trace (ProcessJob w job s).2) = applied (trace s) ++ calls /\
    (forall (i : nat) c,
       calls !! i = Some c ->
       exists op, Job.Operations job !! i = Some op /\
                  c.1.1 = img /\ c.1.2 = op /\
                  applyOperation img op = Done (Ok c.2)) /\
    match (ProcessJob w job s).1 with
    | Done _ => length calls = length (Job.Operations job)
    | Panic msg =>
        exists op, Job.Operations job !! length calls = Some op /\
                   applyOperation img op = Panic msg
    end.
Proof.
  intros Hd. rewrite (ProcessJob_Ok job s img Hd).
  destruct (processOperations_applied img (Job.Operations job) (Job.ID job)
              [] (Now w s).2) as (calls & Hc & HF & Hend).
  destruct (processOperations w img (Job.Operations job) (Job.ID job) []
              (Now w s).2) as [[results|msg] s1]; simpl in *;
    exists calls; (split; [exact Hc|]); (split; [|exact Hend]);
    intros i c Hi;
    destruct (Forall2_lookup_r _ _ _ _ _ HF Hi) as (op & Hop & Hrel);
    exists op; (split; [|exact Hrel]);
    apply lookup_take_Some in Hop; apply Hop.
Qed.

(** ** The status store *)

Lemma ProcessJob_frame (job : Job.t) (s : State) :
  let s' := (ProcessJob w job s).2 in
  rdb s' = rdb s /\ sets s' = sets s /\ queue s' = queue s /\
  statusWrites (trace s') = statusWrites (trace s).
Proof.
  destruct (downloadImage w (Job.ImageURL job) s).1 as [img|e] eqn:Hd.
  - rewrite (ProcessJob_Ok job s img Hd).
    pose proof (processOperations_frame img (Job.Operations job)
                  (Job.ID job) [] (Now w s).2) as HF.
    destruct (processOperations w img _ _ _ _) as [[results|msg] s1];
      simpl in *; exact HF.
  - rewrite (ProcessJob_Err job s e Hd). simpl. auto.
Qed.

(** The job that ProcessJob leaves behind when it returns: Completed
    when it returns no error, untouched when it returns one. *)
Lemma ProcessJob_outcome (job : Job.t) (s : State) :
  match (ProcessJob w job s).1 with
  | Done (job', None) =>
      Job.Status job' = StatusCompleted /\
      Job.ID job' = Job.ID job /\
      Job.Operations job' = Job.Operations job /\
      (length (Job.Results job') <= length (Job.Operations job))%nat
  | Done (job', Some e) => job' = job /\ e <> ""
  | Panic _ => True
  end.
Proof.
  destruct (downloadImage w (Job.ImageURL job) s).1 as [img|e] eqn:Hd.
  - rewrite (ProcessJob_Ok job s img Hd).
    pose proof (fun results' =>
                  processOperations_length img (Job.Operations job)
                    (Job.ID job) [] results' (Now w s).2) as HL.
    destruct (processOperations w img _ _ _ _) as [[results|msg] s1];
      simpl in *; [|exact I].
    repeat split. apply (HL results). reflexivity.
  - rewrite (ProcessJob_Err job s e Hd). simpl. split; [reflexivity|].
    discriminate.
Qed.

Lemma handleDelivery_Envelope (job : Job.t) (s : State) :
  handleDelivery w (Envelope job) s =
  let job0 := Job.with_Status StatusInProgress job in
  let s0 := (rdbSet w ("job:" +:+ Job.ID job) job0 (24 * Hour) s).2 in
  match ProcessJob w job0 s0 with
  | (Done (job1, err), s1) =>
      let job2 := match err with
                  | Some e =>
                      Job.with_Error e (Job.with_Status StatusFailed job1)
                  | None => job1
                  end in
      (Done (Some job2),
       (rdbSet w ("job:" +:+ Job.ID job2) job2 (24 * Hour) s1).2)
  | (Panic msg, s1) => (Panic msg, s1)
  end.
Proof.
  unfold handleDelivery, markInProgress, processAndSave, worker_saveJob,
    pbind, lift, bind, ret.
  simpl.
  destruct (rdbSet w _ _ _ s) as [r0 s0]. simpl.
  destruct (ProcessJob w _ s0) as [[[job1 [e|]]|msg] s1]; simpl;
    try destruct (rdbSet w _ _ _ s1); reflexivity.
Qed.

Lemma rdbSet_trace (key : string) (job : Job.t) (expiry : Z) (s : State) :
  exists ok, trace (rdbSet w key job expiry s).2
             = trace s ++ [EvSet key job ok].
Proof.
  unfold rdbSet. destruct (redis_set_err w (sets s)); simpl; eauto.
Qed.

(** The status writes of one delivery. *)
Lemma handleDelivery_statusWrites (job : Job.t) (s : State) :
  let r := handleDelivery w (Envelope job) s in
  exists rest,
    statusWrites (trace r.2)
    = statusWrites (trace s)
        ++ ("job:" +:+ Job.ID job, StatusInProgress) :: rest /\
    match r.1 with
    | Done j =>
        exists st, rest = [("job:" +:+ Job.ID job, st)] /\
                   is_terminal st = true /\
                   Job.Status <$> j = Some st
    | Panic _ => rest = []
    end.
Proof.
  rewrite handleDelivery_Envelope. cbv zeta.
  set (job0 := Job.with_Status StatusInProgress job).
  destruct (rdbSet_trace ("job:" +:+ Job.ID job) job0 (24 * Hour) s)
    as [ok0 H0].
  set (s0 := (rdbSet w ("job:" +:+ Job.ID job) job0 (24 * Hour) s).2) in *.
  pose proof (ProcessJob_frame job0 s0) as (_ & _ & _ & HT).
  pose proof (ProcessJob_outcome job0 s0) as HO.
  destruct (ProcessJob w job0 s0) as [[[job1 err]|msg] s1]; simpl in HT, HO.
  - match goal with
    | |- context [rdbSet w ?k ?j ?x s1] =>
        destruct (rdbSet_trace k j x s1) as [ok1 H1]
    end.
    destruct err as [e|].
    + destruct HO as [-> _]. eexists. simpl in *.
      rewrite H1, statusWrites_app, HT, H0, statusWrites_app, <- app_assoc.
      split; [reflexivity|]. exists StatusFailed. repeat split.
    + destruct HO as (Hst & Hid & _). eexists. simpl in *.
      rewrite H1, statusWrites_app, HT, H0, statusWrites_app, <- app_assoc.
      simpl. rewrite Hst, Hid.
      split; [reflexivity|]. exists StatusCompleted. repeat split.
  - exists []. simpl. rewrite HT, H0, statusWrites_app. auto.
Qed.

(** C2, as the code has it: for one delivery the worker first writes
    the record of the job with status InProgress, whatever the store
    holds, so a later delivery of the same job puts InProgress over a
    terminal record.  When processing returns, the worker writes the
    record once more, with a terminal status, Completed or Failed, and
    nothing after it; when the imaging library panics, the worker ends
    with the first write as its only one. *)
Theorem delivery_writes_in_progress_then_terminal (job : Job.t) (s : State) :
  let r := handleDelivery w (Envelope job) s in
  exists rest,
    statusWrites (trace r.2)
    = statusWrites (trace s)
        ++ ("job:" +:+ Job.ID job, StatusInProgress) :: rest /\
    match r.1 with
    | Done j =>
        exists st, rest = [("job:" +:+ Job.ID job, st)] /\
                   is_terminal st = true /\
                   Job.Status <$> j = Some st
    | Panic _ => rest = []
    end.
Proof.
  cbv zeta.
  pose proof (ProcessJob_frame (Job.with_Status StatusInProgress job)
                (rdbSet w ("job:" +:+ Job.ID job)
                   (Job.with_Status StatusInProgress job) (24 * Hour) s).2)
    as (_ & _ & _ & HT).
  pose proof (ProcessJob_outcome (Job.with_Status StatusInProgress job)
                (rdbSet w ("job:" +:+ Job.ID job)
                   (Job.with_Status StatusInProgress job) (24 * Hour) s).2)
    as HO.
  destruct (rdbSet_trace ("job:" +:+ Job.ID job)
              (Job.with_Status StatusInProgress job) (24 * Hour) s)
    as [ok0 H0].
  rewrite handleDelivery_Envelope. cbv zeta.
  destruct (ProcessJob w _ _) as [[[job1 err]|msg] s1]; simpl in HT, HO.
  - match goal with
    | |- context [rdbSet w ?k ?j ?x s1] =>
        destruct (rdbSet_trace k j x s1) as [ok1 H1]
    end.
    destruct err as [e|].
    + destruct HO as [-> _]. eexists. simpl in *.
      rewrite H1, statusWrites_app, HT, H0, statusWrites_app, <- app_assoc.
      split; [reflexivity|]. exists StatusFailed. repeat split.
    + destruct HO as (Hst & Hid & _). eexists. simpl in *.
      rewrite H1, statusWrites_app, HT, H0, statusWrites_app, <- app_assoc.
      simpl. rewrite Hst, Hid.
      split; [reflexivity|]. exists StatusCompleted. repeat split.
  - exists []. simpl. rewrite HT, H0, statusWrites_app. auto.
Qed.

(** A delivery returns exactly when ProcessJob does. *)
Lemma handleDelivery_returned (job : Job.t) (s : State) :
  returned (handleDelivery w (Envelope job) s).1
  = returned (ProcessJob w (Job.with_Status StatusInProgress job)
                (rdbSet w ("job:" +:+ Job.ID job)
                   (Job.with_Status StatusInProgress job) (24 * Hour) s).2).1.
Proof.
  rewrite handleDelivery_Envelope. cbv zeta.
  destruct (ProcessJob w _ _) as [[[job1 err]|msg] s1]; reflexivity.
Qed.

(** What the worker makes of a delivery that returns, by the outcome of
    ProcessJob. *)
Lemma handleDelivery_outcome (job : Job.t) (s : State) :
  returned (handleDelivery w (Envelope job) s).1 = true ->
  exists job',
    (handleDelivery w (Envelope job) s).1 = Done (Some job') /\
    Job.Operations job' = Job.Operations job /\
    ((Job.Status job' = StatusCompleted /\
      (length (Job.Results job') <= length (Job.Operations job))%nat)
     \/
     (Job.Status job' = StatusFailed /\ Job.Error job' <> "" /\
      Job.Results job' = Job.Results job)).
Proof.
  rewrite handleDelivery_Envelope. cbv zeta.
  match goal with
  | |- context [ProcessJob w ?j ?x] =>
      pose proof (ProcessJob_outcome j x) as HO;
      destruct (ProcessJob w j x) as [[[job1 err]|msg] s1]
  end; simpl; [intros _|discriminate].
  simpl in HO. destruct err as [e|]; simpl.
  - destruct HO as [-> He]. eexists. split; [reflexivity|]. simpl.
    split; [reflexivity|]. right. auto.
  - destruct HO as (Hst & _ & Hops & Hlen). simpl in Hops, Hlen.
    exists job1. split; [reflexivity|]. split; [exact Hops|]. left. auto.
Qed.

(** C3: a job whose envelope arrives with no more results than
    operations (the envelopes that the admission API publishes carry no
    results at all) and whose delivery the worker goes through is taken
    to a terminal state, and its record then has at least 0 and at most
    as many results as operations. *)
Theorem results_bounded_post_terminal (job : Job.t) (s : State) :
  returned (handleDelivery w (Envelope job) s).1 = true ->
  (length (Job.Results job) <= length (Job.Operations job))%nat ->
  exists job',
    (handleDelivery w (Envelope job) s).1 = Done (Some job') /\
    is_terminal (Job.Status job') = true /\
    (0 <= length (Job.Results job') <= length (Job.Operations job'))%nat.
Proof.
  intros Hret Hin.
  destruct (handleDelivery_outcome job s Hret)
    as (job' & Hj & Hops & [[Hst Hlen] | (Hst & _ & Hres)]);
    exists job'; rewrite Hst, Hops; (split; [exact Hj|]);
    (split; [reflexivity|]); split; try lia.
  rewrite Hres. exact Hin.
Qed.

(** A Completed record needs no assumption on the envelope. *)
Lemma completed_results_bounded (job job' : Job.t) (s : State) :
  (handleDelivery w (Envelope job) s).1 = Done (Some job') ->
  Job.Status job' = StatusCompleted ->
  (length (Job.Results job') <= length (Job.Operations job'))%nat.
Proof.
  intros Hj Hst.
  assert (Hret : returned (handleDelivery w (Envelope job) s).1 = true)
    by (rewrite Hj; reflexivity).
  destruct (handleDelivery_outcome job s Hret)
    as (job'' & Hj' & Hops & [[_ Hlen] | (Hst' & _)]);
    rewrite Hj in Hj'; injection Hj' as <-.
  - rewrite Hops. exact Hlen.
  - rewrite Hst in Hst'. discriminate.
Qed.

(** ** A source that answers with an HTTP error *)

Lemma downloadImage_http_status (url : string) (code : Z) (body : Bytes)
    (s : State) :
  String.prefix "http://" url || String.prefix "https://" url = true ->
  http_do w url = Response code body ->
  code <> 200 ->
  (downloadImage w url s).1 = Err ("HTTP error: " +:+ pretty code).
Proof.
  intros Hp Hh Hc. unfold downloadImage. rewrite Hp.
  unfold downloadFromHTTP. rewrite Hh.
  destruct (Z.eqb_spec code 200) as [E|_]; [contradiction|]. reflexivity.
Qed.

(** C5: when the source reference is an HTTP URL and the answer has a
    status other than 200, the worker ends the delivery with a Failed
    job whose error text is not empty; the results list is empty, as in
    the envelope that arrived; applyOperation is never called and
    nothing is uploaded. *)
Theorem http_error_fails_job (job : Job.t) (s : State) (code : Z)
    (body : Bytes) :
  String.prefix "http://" (Job.ImageURL job)
    || String.prefix "https://" (Job.ImageURL job) = true ->
  http_do w (Job.ImageURL job) = Response code body ->
  code <> 200 ->
  Job.Results job = [] ->
  exists job',
    (handleDelivery w (Envelope job) s).1 = Done (Some job') /\
    Job.Status job' = StatusFailed /\
    Job.Error job'
      = "failed to download image: " +:+ "HTTP error: " +:+ pretty code /\
    Job.Error job' <> "" /\
    Job.Results job' = [] /\
    let s' := (handleDelivery w (Envelope job) s).2 in
    applied (trace s') = applied (trace s) /\
    uploads (trace s') = uploads (trace s) /\
    bucket s' = bucket s /\
    exists ok, last (trace s') = Some (EvSet ("job:" +:+ Job.ID job) job' ok).
Proof.
  intros Hp Hh Hc Hres.
  rewrite handleDelivery_Envelope. cbv zeta.
  set (job0 := Job.with_Status StatusInProgress job).
  set (s0 := (rdbSet w ("job:" +:+ Job.ID job) job0 (24 * Hour) s).2).
  rewrite (ProcessJob_Err job0 s0 ("HTTP error: " +:+ pretty code))
    by (apply (downloadImage_http_status _ code body); assumption).
  eexists. split; [reflexivity|]. simpl.
  split; [reflexivity|]. split; [reflexivity|]. split; [discriminate|].
  split; [exact Hres|].
  unfold rdbSet, s0, rdbSet.
  destruct (redis_set_err w (sets s)); simpl;
    destruct (redis_set_err w _); simpl;
    rewrite ?applied_app, ?uploads_app, ?last_snoc; simpl;
    rewrite ?app_nil_r; eauto.
Qed.

(** ** Partial failure *)

(** C4, as the code has it: applyOperation rejects no parameters, so
    the only way for an operation to fail is its encoding or its upload.
    When acquisition succeeds and, of exactly two operations, the first
    succeeds and the second fails, the job is Completed with exactly one
    result, the one of the first operation. *)
Theorem second_operation_failure_keeps_first_result (job : Job.t)
    (s : State) (img : Image) (op1 op2 : ImageOperation.t)
    (res1 : ProcessedImage.t) (e : string) :
  Job.Operations job = [op1; op2] ->
  (downloadImage w (Job.ImageURL job) s).1 = Ok img ->
  let r1 := processOperation w img op1 (Job.ID job) (Now w s).2 in
  let r2 := processOperation w img op2 (Job.ID job) r1.2 in
  r1.1 = Done (Ok res1) ->
  r2.1 = Done (Err e) ->
  exists job',
    (ProcessJob w job s).1 = Done (job', None) /\
    Job.Status job' = StatusCompleted /\
    Job.Results job' = [res1] /\
    (exists out1, applyOperation img op1 = Done (Ok out1) /\
       ProcessedImage.Operation res1
       = ImageOperation.with_OutputKey (ProcessedImage.OutputKey res1) op1) /\
    (exists out2 e', applyOperation img op2 = Done (Ok out2) /\
       e = "failed to upload result: " +:+ e').
Proof.
  intros Hops Hd r1 r2 H1 H2.
  rewrite (ProcessJob_Ok job s img Hd).
  rewrite Hops, processOperations_cons. fold r1.
  destruct r1 as [x1 t1] eqn:E1. simpl in H1. subst x1.
  rewrite processOperations_cons.
  simpl in r2. fold r2.
  destruct r2 as [x2 t2] eqn:E2. simpl in H2. subst x2.
  simpl. eexists. split; [reflexivity|]. simpl.
  split; [reflexivity|]. split; [reflexivity|]. split.
  - destruct (processOperation_Ok _ _ _ _ _ _ E1)
      as (out1 & buf & Ha & _ & _ & Hop & Hk & _).
    exists out1. rewrite Hk. auto.
  - destruct (processOperation_Err _ _ _ _ _ _ E2)
      as (out2 & Ha & [(e' & _ & ->) | (e' & _ & ->)]); eauto.
Qed.

(** ** Encoding *)

(** C6: for a JPEG or WebP operation whose quality is zero (also the
    value of an unset field) uploadResult encodes with the JPEG encoder at
    quality 90.  When that encoding fails, so does the upload, and nothing
    is stored; when it gives bytes, these are the bytes put into the
    bucket, and they are stored unless the object store refuses them. *)
Theorem default_quality_is_90 (op : ImageOperation.t) (img : Image)
    (s : State) :
  ImageOperation.Format op = FormatJPEG
    \/ ImageOperation.Format op = FormatWebP ->
  ImageOperation.Quality op = 0 ->
  let r := uploadResult w img op s in
  let key := ImageOperation.OutputKey op
               +:+ fileExtension (ImageOperation.Format op) in
  match jpegEncode img 90 with
  | Err e =>
      r.1 = Err ("failed to encode image: " +:+ e) /\ r.2 = s
  | Ok buf =>
      uploads (trace r.2) = uploads (trace s) ++ [key] /\
      match put_object_err w (puts s) with
      | Some e =>
          r.1 = Err ("failed to upload to storage: " +:+ e) /\
          bucket r.2 = bucket s
      | None =>
          r.1 = Ok key /\
          bucket r.2 !! key
          = Some (Build_Object buf ("image/" +:+ ImageOperation.Format op))
      end
  end.
Proof.
  intros Hf Hq. cbv zeta.
  assert (He : runEncoder (encoderFor op) img = jpegEncode img 90).
  { unfold encoderFor. destruct Hf as [Hf|Hf]; rewrite Hf, ?Hq; reflexivity. }
  unfold uploadResult, PutObject, bind, ret. rewrite He.
  destruct (jpegEncode img 90) as [buf|e]; simpl; [|auto].
  destruct (put_object_err w (puts s)); simpl;
    rewrite uploads_app; simpl; (split; [reflexivity|]);
    (split; [reflexivity|]); [reflexivity|apply lookup_insert_eq].
Qed.

(** What a successful uploadResult has done. *)
Lemma uploadResult_Ok (img : Image) (op : ImageOperation.t) (s : State)
    (url : string) :
  (uploadResult w img op s).1 = Ok url ->
  exists buf,
    runEncoder (encoderFor op) img = Ok buf /\
    url = ImageOperation.OutputKey op
            +:+ fileExtension (ImageOperation.Format op) /\
    bucket (uploadResult w img op s).2
    = <[url := Build_Object buf ("image/" +:+ ImageOperation.Format op)]>
        (bucket s) /\
    trace (uploadResult w img op s).2
    = trace s ++ [EvPut url ("image/" +:+ ImageOperation.Format op) true].
Proof.
  unfold uploadResult, PutObject, bind, ret.
  destruct (runEncoder (encoderFor op) img) as [buf|e0]; simpl;
    [|discriminate].
  destruct (put_object_err w (puts s)); simpl; [discriminate|].
  intros E. injection E as <-. eauto.
Qed.

(** C8: the object of a successful upload is stored under the output
    key followed by [.jpg] when the format is [jpeg] and by a dot and
    the format otherwise, with content type [image/] and the format. *)
Theorem upload_extension_and_content_type (img : Image)
    (op : ImageOperation.t) (s : State) (url : string) :
  (uploadResult w img op s).1 = Ok url ->
  let s' := (uploadResult w img op s).2 in
  url = ImageOperation.OutputKey op
          +:+ (if String.eqb (ImageOperation.Format op) "jpeg" then ".jpg"
               else "." +:+ ImageOperation.Format op) /\
  exists buf,
    bucket s' !! url
    = Some (Build_Object buf ("image/" +:+ ImageOperation.Format op)) /\
    trace s'
    = trace s ++ [EvPut url ("image/" +:+ ImageOperation.Format op) true].
Proof.
  intros Hu. destruct (uploadResult_Ok img op s url Hu)
    as (buf & _ & Hurl & Hb & Ht).
  split.
  - rewrite Hurl. reflexivity.
  - exists buf. simpl. rewrite Hb, Ht, lookup_insert_eq. auto.
Qed.

(** ** Output keys *)

Lemma processOperation_Ok_fst (img : Image) (op : ImageOperation.t)
    (jobID : string) (s : State) (res : ProcessedImage.t) :
  (processOperation w img op jobID s).1 = Done (Ok res) ->
  processOperation w img op jobID s
  = (Done (Ok res), (processOperation w img op jobID s).2).
Proof.
  intros E. rewrite <- E. apply surjective_pairing.
Qed.

(** C7, as the code has it: the object of a successful operation is
    stored under a key followed by the file extension of the format.
    The key is the explicit output key when there is one; otherwise it
    is [processed/<job_id>/<operation_kind>_<token>], the token being
    the first eight characters of a UUID drawn for this operation. *)
Theorem stored_key_is_key_plus_extension (img : Image)
    (op : ImageOperation.t) (jobID : string) (s : State)
    (res : ProcessedImage.t) :
  (processOperation w img op jobID s).1 = Done (Ok res) ->
  let s' := (processOperation w img op jobID s).2 in
  exists key obj,
    bucket s'
    = <[key +:+ fileExtension (ImageOperation.Format op) := obj]> (bucket s) /\
    uploads (trace s')
    = uploads (trace s) ++ [key +:+ fileExtension (ImageOperation.Format op)] /\
    (ImageOperation.OutputKey op <> "" ->
       key = ImageOperation.OutputKey op /\ uuids s' = uuids s) /\
    (ImageOperation.OutputKey op = "" ->
       key = "processed/" +:+ jobID +:+ "/" +:+ ImageOperation.Type_ op
               +:+ "_" +:+ String.substring 0 8 (uuid_new w (uuids s)) /\
       uuids s' = S (uuids s)).
Proof.
  intros Hr. apply processOperation_Ok_fst in Hr.
  destruct (processOperation_Ok _ _ _ _ _ _ Hr)
    as (out & buf & _ & _ & _ & _ & _ & _ & _ & _ & _ & Hb & Hu & Ht).
  cbv zeta. exists (keyFor w op jobID s). eexists.
  split; [exact Hb|]. split.
  - rewrite Ht, uploads_app. reflexivity.
  - unfold keyFor. rewrite Hu.
    destruct (String.eqb_spec (ImageOperation.OutputKey op) "") as [E|E];
      split; intros E'; try contradiction; auto.
Qed.

(** C10, as the code has it: the result of a successful operation has
    an [output_url] that is its [output_key] followed by the file
    extension of its format, and the object is stored under the
    [output_url].  The [output_key] is a different key and the operation
    stores nothing under it: it names a stored object exactly when one
    was in the bucket under that key before the operation. *)
Theorem output_url_is_output_key_plus_extension (img : Image)
    (op : ImageOperation.t) (jobID : string) (s : State)
    (res : ProcessedImage.t) :
  (processOperation w img op jobID s).1 = Done (Ok res) ->
  let s' := (processOperation w img op jobID s).2 in
  ProcessedImage.OutputURL res
  = ProcessedImage.OutputKey res
      +:+ fileExtension (ProcessedImage.Format res) /\
  (exists obj,
     bucket s' = <[ProcessedImage.OutputURL res := obj]> (bucket s)) /\
  uploads (trace s') = uploads (trace s) ++ [ProcessedImage.OutputURL res] /\
  ProcessedImage.OutputKey res <> ProcessedImage.OutputURL res /\
  bucket s' !! ProcessedImage.OutputKey res
  = bucket s !! ProcessedImage.OutputKey res.
Proof.
  intros Hr. apply processOperation_Ok_fst in Hr.
  destruct (processOperation_Ok _ _ _ _ _ _ Hr)
    as (out & buf & _ & _ & _ & _ & Hk & Hurl & Hf & _ & _ & Hb & _ & Ht).
  cbv zeta in *.
  assert (Hne : ProcessedImage.OutputKey res <> ProcessedImage.OutputURL res).
  { rewrite Hurl, Hk. intros E. symmetry in E.
    apply append_eq_self in E.
    exact (fileExtension_nonempty _ E). }
  split; [rewrite Hurl, Hk, Hf; reflexivity|].
  split; [rewrite Hurl; eauto|].
  split; [rewrite Ht, uploads_app, Hurl; reflexivity|].
  split; [exact Hne|].
  rewrite Hb, <- Hurl. apply lookup_insert_ne. auto.
Qed.

(** ** Admission *)

(** C9: a POST whose body has a source reference and no operations
    creates a job with status Pending and one operation, a resize to
    800 by 600 as JPEG at quality 90.  That job is written to the status
    store and published; the response carries it unless one of the two
    writes fails. *)
Theorem default_operation_on_admission (req : CreateJobRequest)
    (s : State) :
  req_ImageURL req <> "" ->
  req_Operations req = [] ->
  exists job,
    Job.Operations job
    = [ImageOperation.mk OpResize 800 600 FormatJPEG 90 "" ""] /\
    Job.Status job = StatusPending /\
    Job.ImageURL job = req_ImageURL req /\
    Job.Results job = [] /\
    let (resp, s') := handleCreateJob w "POST" (Ok req) s in
    match redis_set_err w (sets s), publish_err w (pubs s) with
    | None, None =>
        resp = JobResponse "Job created successfully" job /\
        rdb s' !! ("job:" +:+ Job.ID job) = Some (Build_Entry job (24 * Hour)) /\
        queue s' = queue s ++ [job]
    | None, Some _ =>
        resp = HttpError "failed to publish job" 500 /\
        rdb s' !! ("job:" +:+ Job.ID job) = Some (Build_Entry job (24 * Hour)) /\
        queue s' = queue s
    | Some _, _ =>
        resp = HttpError "failed to save job" 500 /\
        rdb s' = rdb s /\ queue s' = queue s
    end.
Proof.
  intros Hurl Hops.
  unfold handleCreateJob, api_saveJob, Publish, rdbSet, uuidNew, Now,
    bind, ret.
  simpl. rewrite Hops. simpl.
  destruct (String.eqb_spec (req_ImageURL req) "") as [E|_];
    [contradiction|].
  eexists. split; [|split; [|split; [|split]]]; cycle 4.
  - destruct (redis_set_err w (sets s)) eqn:ER; simpl.
    + repeat split.
    + destruct (publish_err w (pubs s)) eqn:EP; simpl;
        (split; [reflexivity|]); (split; [|reflexivity]);
        apply lookup_insert_eq.
  - reflexivity.
  - reflexivity.
  - reflexivity.
  - reflexivity.
Qed.

(** The admission API publishes envelopes without results. *)
Lemma handleCreateJob_publishes_no_results (method : string)
    (body : result CreateJobRequest) (s : State) :
  let s' := (handleCreateJob w method body s).2 in
  queue s' = queue s \/
  exists job, queue s' = queue s ++ [job] /\
              Job.Results job = [] /\ Job.Status job = StatusPending.
Proof.
  unfold handleCreateJob, api_saveJob, Publish, rdbSet, uuidNew, Now,
    bind, ret.
  repeat case_match; simpl in *; simplify_eq; simpl; eauto.
Qed.

End Properties.

(** * Further properties of the processor *)

Section Processor.
Context `{Imaging}.
Variable w : World.

(** X1: a resize operation with at least one positive side calls
    imaging.Resize with each positive side as given and 0 for a side that
    is zero or negative; a negative side never reaches the library.  The
    operation gives what that call gives, a raster or a panic. *)
Theorem applyOperation_resize_sides (img : Image) (op : ImageOperation.t) :
  ImageOperation.Type_ op = OpResize ->
  0 < ImageOperation.Width op \/ 0 < ImageOperation.Height op ->
  applyOperation img op
  = omap Ok (Resize img (Z.max 0 (ImageOperation.Width op))
               (Z.max 0 (ImageOperation.Height op)) Lanczos).
Proof.
  intros Hty Hside. unfold applyOperation. rewrite Hty. simpl.
  destruct (Z.ltb_spec 0 (ImageOperation.Width op)) as [Hw|Hw];
    destruct (Z.ltb_spec 0 (ImageOperation.Height op)) as [Hh|Hh];
    simpl; try lia;
    rewrite ?(Z.max_r 0 (ImageOperation.Width op)) by lia;
    rewrite ?(Z.max_r 0 (ImageOperation.Height op)) by lia;
    rewrite ?(Z.max_l 0 (ImageOperation.Width op)) by lia;
    rewrite ?(Z.max_l 0 (ImageOperation.Height op)) by lia;
    destruct (Resize _ _ _ _); reflexivity.
Qed.

(** X2: every other operation returns the raster it was given: a resize
    without a positive side, a format operation whatever its sides, a
    watermark operation whatever its text, and an operation of unknown
    kind. *)
Theorem applyOperation_pass_through (img : Image) (op : ImageOperation.t) :
  ImageOperation.Type_ op <> OpResize
    \/ (ImageOperation.Width op <= 0 /\ ImageOperation.Height op <= 0) ->
  applyOperation img op = Done (Ok img).
Proof.
  intros Hcase. unfold applyOperation, addWatermark.
  assert (Hnot : String.eqb (ImageOperation.Type_ op) OpResize
                 && ((0 <? ImageOperation.Width op)
                     || (0 <? ImageOperation.Height op)) = false).
  { destruct Hcase as [Hty|[Hw Hh]].
    - apply String.eqb_neq in Hty. rewrite Hty. reflexivity.
    - destruct (Z.ltb_spec 0 (ImageOperation.Width op)); [lia|].
      destruct (Z.ltb_spec 0 (ImageOperation.Height op)); [lia|].
      apply andb_false_r. }
  rewrite Hnot.
  destruct (String.eqb (ImageOperation.Type_ op) OpWatermark && _);
    reflexivity.
Qed.

(** X3: for a format other than jpeg and png (webp, or any unknown
    text) the stored bytes are a JPEG at quality 90, under a key that ends
    in a dot and the requested format and with the content type of the
    requested format. *)
Theorem other_formats_are_stored_as_jpeg (img : Image)
    (op : ImageOperation.t) (s : State) (url : string) :
  ImageOperation.Format op <> FormatJPEG ->
  ImageOperation.Format op <> FormatPNG ->
  (uploadResult w img op s).1 = Ok url ->
  exists buf,
    jpegEncode img 90 = Ok buf /\
    url = ImageOperation.OutputKey op +:+ "." +:+ ImageOperation.Format op /\
    bucket (uploadResult w img op s).2 !! url
    = Some (Build_Object buf ("image/" +:+ ImageOperation.Format op)).
Proof.
  intros Hj Hp Hu.
  destruct (uploadResult_Ok w img op s url Hu) as (buf & He & Hurl & Hb & _).
  exists buf. split; [|split].
  - revert He. unfold encoderFor.
    apply String.eqb_neq in Hj, Hp. rewrite Hj, Hp.
    destruct (String.eqb _ FormatWebP); simpl; auto.
  - rewrite Hurl, fileExtension_other by exact Hj. reflexivity.
  - rewrite Hb. apply lookup_insert_eq.
Qed.

(** X4: an operation that fails stores nothing: the bucket, the status
    store and the queue are as before. *)
Theorem failed_operation_stores_nothing (img : Image)
    (op : ImageOperation.t) (jobID : string) (s : State) (e : string) :
  (processOperation w img op jobID s).1 = Done (Err e) ->
  let s' := (processOperation w img op jobID s).2 in
  bucket s' = bucket s /\ rdb s' = rdb s /\ queue s' = queue s.
Proof.
  destruct (applyOperation_cases img op) as [[out Hout]|[msg Hout]];
    unfold processOperation, generateOutputKey, uploadResult, PutObject,
      Since, Now, uuidNew, emit, pbind, lift, call, bind, ret;
    rewrite Hout; simpl; [|discriminate].
  repeat case_match; simplify_eq; simpl; intros; try discriminate; auto.
Qed.

(** X5: the result of a successful operation has the bounds of the
    processed raster as width and height, the format text of the
    operation, the operation itself with the output key filled in, the
    time between the two clock readings of the call as processing time,
    and size 0: the size field is never set, whatever was uploaded. *)
Theorem result_fields (img : Image) (op : ImageOperation.t)
    (jobID : string) (s : State) (res : ProcessedImage.t) :
  (processOperation w img op jobID s).1 = Done (Ok res) ->
  exists out,
    applyOperation img op = Done (Ok out) /\
    ProcessedImage.Width res = Dx out /\
    ProcessedImage.Height res = Dy out /\
    resultOf res op /\
    ProcessedImage.Size res = 0 /\
    ProcessedImage.ProcessingTime res
    = clock w (S (ticks s)) - clock w (ticks s).
Proof.
  destruct (applyOperation_cases img op) as [[out Hout]|[msg Hout]];
    unfold processOperation, generateOutputKey, uploadResult, PutObject,
      Since, Now, uuidNew, emit, pbind, lift, call, bind, ret, resultOf;
    rewrite Hout; simpl; [|discriminate].
  destruct op as [ty wd ht fmt q wm k]; simpl.
  unfold encoderFor; simpl.
  destruct (String.eqb k "") eqn:Ek; simpl;
    (destruct (runEncoder _ out) as [buf|e0]; simpl; [|discriminate]);
    (destruct (put_object_err w (puts s)); simpl; [discriminate|]);
    intros E; simplify_eq; simpl; exists out; repeat split.
Qed.

(** X6: the object of a successful operation can be the source of a
    later job.  When the decoder reads what the encoder of the operation
    writes, its [output_url], unless it begins with a network scheme, is
    fetched from the bucket and acquired as a raster: the one that the
    uploaded bytes decode to. *)
Theorem output_url_is_a_source_reference (img : Image)
    (op : ImageOperation.t) (jobID : string) (s : State)
    (res : ProcessedImage.t) :
  (processOperation w img op jobID s).1 = Done (Ok res) ->
  String.prefix "http://" (ProcessedImage.OutputURL res)
    || String.prefix "https://" (ProcessedImage.OutputURL res) = false ->
  get_object_err w (ProcessedImage.OutputURL res) = None ->
  (forall out buf,
     applyOperation img op = Done (Ok out) ->
     runEncoder (encoderFor op) out = Ok buf ->
     exists img', Decode buf = Ok img') ->
  exists out buf img',
    applyOperation img op = Done (Ok out) /\
    runEncoder (encoderFor op) out = Ok buf /\
    Decode buf = Ok img' /\
    (downloadImage w (ProcessedImage.OutputURL res)
       (processOperation w img op jobID s).2).1
    = Ok img'.
Proof.
  intros Hr Hp Hg Hdec. apply processOperation_Ok_fst in Hr.
  destruct (processOperation_Ok w _ _ _ _ _ _ Hr)
    as (out & buf & Ha & He & _ & _ & _ & Hurl & _ & _ & _ & Hb & _).
  cbv zeta in *. destruct (Hdec out buf Ha He) as [img' Himg'].
  exists out, buf, img'.
  split; [exact Ha|]. split; [exact He|]. split; [exact Himg'|].
  unfold downloadImage. rewrite Hp. unfold downloadFromStorage.
  rewrite Hg, Hb, <- Hurl, lookup_insert_eq. simpl.
  rewrite Himg'. reflexivity.
Qed.

End Processor.

(** * Further properties of ProcessJob and of the worker *)

Section Worker.
Context `{Imaging}.
Variable w : World.

Lemma processOperation_resultOf (img : Image) (op : ImageOperation.t)
    (jobID : string) (s s' : State) (res : ProcessedImage.t) :
  processOperation w img op jobID s = (Done (Ok res), s') -> resultOf res op.
Proof.
  intros Hr.
  destruct (processOperation_Ok w _ _ _ _ _ _ Hr)
    as (out & buf & _ & _ & _ & Hop & Hk & _ & Hf & _).
  cbv zeta in *. split; [rewrite Hk; exact Hop | exact Hf].
Qed.

Lemma processOperations_inOrder (img : Image) (ops : list ImageOperation.t)
    (jobID : string) (results0 results : list ProcessedImage.t)
    (ops0 : list ImageOperation.t) (s : State) :
  Forall2 resultOf results0 ops0 ->
  (processOperations w img ops jobID results0 s).1 = Done results ->
  exists ops',
    inOrder ops' ops /\ Forall2 resultOf results (ops0 ++ ops').
Proof.
  unfold inOrder. revert results0 ops0 s.
  induction ops as [|op ops IH]; intros results0 ops0 s H0.
  - simpl. intros E. injection E as <-.
    exists []. rewrite app_nil_r. split; [constructor | exact H0].
  - rewrite processOperations_cons.
    destruct (processOperation w img op jobID s) as [[[res|e]|msg] s1] eqn:E;
      intros Hres.
    + destruct (IH (results0 ++ [res]) (ops0 ++ [op]) s1) as (ops' & Hs & HF).
      { apply Forall2_app; [exact H0|].
        constructor; [|constructor].
        eapply processOperation_resultOf; eauto. }
      { exact Hres. }
      exists (op :: ops'). split; [apply sublist_skip; exact Hs|].
      rewrite <- app_assoc in HF. exact HF.
    + destruct (IH results0 ops0 s1 H0 Hres) as (ops' & Hs & HF).
      exists ops'. split; [apply sublist_cons; exact Hs | exact HF].
    + discriminate.
Qed.

(** X7: the results of a processed job follow its operations: when the
    source is acquired and ProcessJob returns, they are results of
    operations picked out of the operation list, in list order and each
    operation at most once. *)
Theorem results_follow_operations (job : Job.t) (s : State) (img : Image) :
  (downloadImage w (Job.ImageURL job) s).1 = Ok img ->
  returned (ProcessJob w job s).1 = true ->
  exists job' ops',
    (ProcessJob w job s).1 = Done (job', None) /\
    inOrder ops' (Job.Operations job) /\
    Forall2 resultOf (Job.Results job') ops'.
Proof.
  intros Hd. rewrite (ProcessJob_Ok w job s img Hd).
  pose proof (fun results =>
                processOperations_inOrder img (Job.Operations job)
                  (Job.ID job) [] results [] (Now w s).2
                  ltac:(constructor)) as HI.
  destruct (processOperations w img _ _ _ _) as [[results|msg] s1];
    simpl; [intros _|discriminate].
  destruct (HI results eq_refl) as (ops' & Hs & HF).
  eexists. exists ops'. split; [reflexivity|]. split; [exact Hs|exact HF].
Qed.

Lemma processOperation_succeeds (img out : Image) (op : ImageOperation.t)
    (jobID : string) (s : State) (buf : Bytes) :
  applyOperation img op = Done (Ok out) ->
  runEncoder (encoderFor op) out = Ok buf ->
  put_object_err w (puts s) = None ->
  exists res, (processOperation w img op jobID s).1 = Done (Ok res).
Proof.
  intros Ha He Hp.
  unfold processOperation, generateOutputKey, uploadResult, PutObject,
    Since, Now, uuidNew, emit, pbind, lift, call, bind, ret.
  rewrite Ha. simpl.
  destruct op as [ty wd ht fmt q wm k]; simpl.
  unfold encoderFor in *; simpl in *.
  destruct (String.eqb k ""); simpl; rewrite He; simpl; rewrite Hp; simpl;
    eauto.
Qed.

Lemma processOperations_all (img : Image) (ops : list ImageOperation.t)
    (jobID : string) (results0 : list ProcessedImage.t)
    (ops0 : list ImageOperation.t) (s : State) :
  (forall n, put_object_err w n = None) ->
  Forall (fun op => exists out buf,
            applyOperation img op = Done (Ok out) /\
            runEncoder (encoderFor op) out = Ok buf) ops ->
  Forall2 resultOf results0 ops0 ->
  exists results,
    (processOperations w img ops jobID results0 s).1 = Done results /\
    Forall2 resultOf results (ops0 ++ ops).
Proof.
  intros Hput. revert results0 ops0 s.
  induction ops as [|op ops IH]; intros results0 ops0 s Henc H0.
  - simpl. rewrite app_nil_r. eauto.
  - rewrite processOperations_cons.
    apply Forall_cons in Henc as [(out & buf & Ha & He) Henc].
    destruct (processOperation_succeeds img out op jobID s buf Ha He (Hput _))
      as [res Hres].
    destruct (processOperation w img op jobID s) as [r s1] eqn:E.
    simpl in Hres. subst r.
    replace (ops0 ++ op :: ops) with ((ops0 ++ [op]) ++ ops)
      by (rewrite <- app_assoc; reflexivity).
    apply IH; [exact Henc|].
    apply Forall2_app; [exact H0|].
    constructor; [|constructor].
    eapply processOperation_resultOf; eauto.
Qed.

(** X8: when every upload is accepted and every operation of the job
    can be applied and encoded, a job with an acquired source ends with
    one result per operation, in list order. *)
Theorem one_result_per_operation (job : Job.t) (s : State) (img : Image) :
  (downloadImage w (Job.ImageURL job) s).1 = Ok img ->
  (forall n, put_object_err w n = None) ->
  Forall (fun op => exists out buf,
            applyOperation img op = Done (Ok out) /\
            runEncoder (encoderFor op) out = Ok buf) (Job.Operations job) ->
  exists job',
    (ProcessJob w job s).1 = Done (job', None) /\
    Forall2 resultOf (Job.Results job') (Job.Operations job) /\
    length (Job.Results job') = length (Job.Operations job).
Proof.
  intros Hd Hput Henc. rewrite (ProcessJob_Ok w job s img Hd).
  destruct (processOperations_all img (Job.Operations job) (Job.ID job)
              [] [] (Now w s).2 Hput Henc ltac:(constructor))
    as (results & HP & HF).
  destruct (processOperations w img _ _ _ _) as [o s1]. simpl in HP.
  subst o. simpl in HF.
  eexists. split; [reflexivity|]. simpl. split; [exact HF|].
  eapply Forall2_length; eauto.
Qed.

(** What the worker does when the source cannot be acquired. *)
Lemma handleDelivery_acquisition_failure (job : Job.t) (s : State)
    (e : string) :
  (downloadImage w (Job.ImageURL job) s).1 = Err e ->
  (handleDelivery w (Envelope job) s).1
  = Done (Some (Job.with_Error ("failed to download image: " +:+ e)
                  (Job.with_Status StatusFailed
                     (Job.with_Status StatusInProgress job)))) /\
  let s' := (handleDelivery w (Envelope job) s).2 in
  applied (trace s') = applied (trace s) /\
  uploads (trace s') = uploads (trace s) /\
  bucket s' = bucket s /\ queue s' = queue s.
Proof.
  intros Hd. rewrite handleDelivery_Envelope. cbv zeta.
  set (job0 := Job.with_Status StatusInProgress job).
  set (s0 := (rdbSet w ("job:" +:+ Job.ID job) job0 (24 * Hour) s).2).
  assert (Hd0 : (downloadImage w (Job.ImageURL job0) s0).1 = Err e).
  { rewrite <- Hd. apply downloadImage_bucket.
    unfold s0, rdbSet. destruct (redis_set_err w (sets s)); reflexivity. }
  rewrite (ProcessJob_Err w job0 s0 e Hd0).
  split; [reflexivity|]. simpl.
  unfold rdbSet, s0, rdbSet.
  destruct (redis_set_err w (sets s)); simpl;
    destruct (redis_set_err w _); simpl;
    rewrite ?applied_app, ?uploads_app; simpl;
    rewrite ?app_nil_r; auto.
Qed.

(** X9: whatever makes the acquisition fail (transport, status, missing
    object, decoding), the worker ends the delivery with a Failed job
    whose error is the cause after [failed to download image: ]; the
    results and the completion time are those of the envelope; no
    operation is applied, nothing is uploaded or published. *)
Theorem acquisition_failure_fails_job (job : Job.t) (s : State) (e : string) :
  (downloadImage w (Job.ImageURL job) s).1 = Err e ->
  exists job',
    (handleDelivery w (Envelope job) s).1 = Done (Some job') /\
    Job.Status job' = StatusFailed /\
    Job.Error job' = "failed to download image: " +:+ e /\
    Job.Results job' = Job.Results job /\
    Job.CompletedAt job' = Job.CompletedAt job /\
    let s' := (handleDelivery w (Envelope job) s).2 in
    applied (trace s') = applied (trace s) /\
    uploads (trace s') = uploads (trace s) /\
    bucket s' = bucket s /\ queue s' = queue s.
Proof.
  intros Hd.
  destruct (handleDelivery_acquisition_failure job s e Hd) as [Hj Hs].
  eexists. split; [exact Hj|]. simpl. repeat split; apply Hs.
Qed.


End Worker.

(** * Further properties of the worker and the status store *)

Section WorkerStore.
Context `{Imaging}.
Variable w : World.

(** The job that ProcessJob returns keeps the fields that identify it. *)
Lemma ProcessJob_identity (job : Job.t) (s : State) :
  match (ProcessJob w job s).1 with
  | Done (job', err) =>
      Job.ID job' = Job.ID job /\ Job.ImageURL job' = Job.ImageURL job /\
      Job.Operations job' = Job.Operations job /\
      Job.CreatedAt job' = Job.CreatedAt job /\
      Job.Error job' = Job.Error job /\
      match err with
      | None =>
          Job.Status job' = StatusCompleted /\ is_Some (Job.CompletedAt job')
      | Some _ => job' = job
      end
  | Panic _ => True
  end.
Proof.
  destruct (downloadImage w (Job.ImageURL job) s).1 as [img|e] eqn:Hd.
  - rewrite (ProcessJob_Ok w job s img Hd).
    destruct (processOperations w img _ _ _ _) as [[results|msg] s1];
      simpl; [|exact I].
    repeat split. eauto.
  - rewrite (ProcessJob_Err w job s e Hd). simpl. repeat split.
Qed.

(** The status store after a delivery: the first write, and the last
    one when the delivery returns, each applied if the store accepted
    it. *)
Lemma handleDelivery_store (job : Job.t) (s : State) :
  let r := handleDelivery w (Envelope job) s in
  let first :=
    (match redis_set_err w (sets s) with
     | None =>
         <["job:" +:+ Job.ID job :=
             Build_Entry (Job.with_Status StatusInProgress job) (24 * Hour)]>
     | Some _ => fun m => m
     end) (rdb s) in
  queue r.2 = queue s /\
  match r.1 with
  | Done j =>
      exists job',
        j = Some job' /\ Job.ID job' = Job.ID job /\
        is_terminal (Job.Status job') = true /\
        rdb r.2
        = (match redis_set_err w (S (sets s)) with
           | None => <["job:" +:+ Job.ID job := Build_Entry job' (24 * Hour)]>
           | Some _ => fun m => m
           end) first
  | Panic _ => rdb r.2 = first
  end.
Proof.
  rewrite handleDelivery_Envelope. cbv zeta.
  set (job0 := Job.with_Status StatusInProgress job).
  set (s0 := (rdbSet w ("job:" +:+ Job.ID job) job0 (24 * Hour) s).2).
  assert (Hs0 : sets s0 = S (sets s) /\ queue s0 = queue s /\
                rdb s0 = (match redis_set_err w (sets s) with
                          | None => <["job:" +:+ Job.ID job :=
                                        Build_Entry job0 (24 * Hour)]>
                          | Some _ => fun m => m
                          end) (rdb s)).
  { unfold s0, rdbSet. destruct (redis_set_err w (sets s)); simpl; auto. }
  destruct Hs0 as (Hsets0 & Hq0 & Hrdb0).
  pose proof (ProcessJob_frame w job0 s0) as (Hr & Hs & Hq & _).
  pose proof (ProcessJob_outcome w job0 s0) as HO.
  destruct (ProcessJob w job0 s0) as [[[job1 err]|msg] s1];
    simpl in Hr, Hs, Hq, HO.
  - assert (Hid : Job.ID job1 = Job.ID job).
    { destruct err; [destruct HO as [-> _]; reflexivity|].
      destruct HO as (_ & -> & _). reflexivity. }
    assert (Hq1 : forall k j x, queue (rdbSet w k j x s1).2 = queue s).
    { intros k j x. unfold rdbSet.
      destruct (redis_set_err w (sets s1)); simpl; congruence. }
    destruct err as [e|]; simpl; (split; [apply Hq1|]);
      eexists; (split; [reflexivity|]); simpl;
      rewrite ?Hid; (split; [reflexivity|]);
      (split; [try reflexivity; destruct HO as [-> _]; reflexivity|]);
      unfold rdbSet; rewrite Hs, Hsets0;
      destruct (redis_set_err w (S (sets s))); simpl;
      rewrite Hr, Hrdb0; auto.
  - simpl. split; congruence.
Qed.

Lemma handleDelivery_store_returned (job : Job.t) (s : State) :
  returned (handleDelivery w (Envelope job) s).1 = true ->
  exists job',
    (handleDelivery w (Envelope job) s).1 = Done (Some job') /\
    Job.ID job' = Job.ID job /\
    is_terminal (Job.Status job') = true /\
    rdb (handleDelivery w (Envelope job) s).2
    = (match redis_set_err w (S (sets s)) with
       | None => <["job:" +:+ Job.ID job := Build_Entry job' (24 * Hour)]>
       | Some _ => fun m => m
       end)
        ((match redis_set_err w (sets s) with
          | None =>
              <["job:" +:+ Job.ID job :=
                  Build_Entry (Job.with_Status StatusInProgress job)
                              (24 * Hour)]>
          | Some _ => fun m => m
          end) (rdb s)).
Proof.
  pose proof (handleDelivery_store job s) as [_ HS]. cbv zeta in HS.
  destruct (handleDelivery w (Envelope job) s).1 as [j|msg];
    simpl; [intros _|discriminate].
  destruct HS as (job' & -> & Hid & Ht & Hr). eauto.
Qed.

(** X11: when the worker goes through a delivery and the store accepts
    its last write, the record under [job:<id>] is the whole job as the
    worker left it, in a terminal state, with an expiry of 24 hours. *)
Theorem stored_record_is_the_final_job (job : Job.t) (s : State) :
  returned (handleDelivery w (Envelope job) s).1 = true ->
  redis_set_err w (S (sets s)) = None ->
  exists job',
    (handleDelivery w (Envelope job) s).1 = Done (Some job') /\
    is_terminal (Job.Status job') = true /\
    rdb (handleDelivery w (Envelope job) s).2 !! ("job:" +:+ Job.ID job)
    = Some (Build_Entry job' (24 * Hour)).
Proof.
  intros Hret Hok.
  destruct (handleDelivery_store_returned job s Hret)
    as (job' & Hj & _ & Ht & Hr).
  exists job'. split; [exact Hj|]. split; [exact Ht|].
  rewrite Hr, Hok. apply lookup_insert_eq.
Qed.

(** X12: when the worker goes through a delivery, the store accepts the
    first write and refuses the last, the record stays InProgress
    although the job has reached a terminal state in the worker: the
    write is not retried. *)
Theorem refused_final_write_leaves_in_progress (job : Job.t) (s : State)
    (e : string) :
  returned (handleDelivery w (Envelope job) s).1 = true ->
  redis_set_err w (sets s) = None ->
  redis_set_err w (S (sets s)) = Some e ->
  exists job',
    (handleDelivery w (Envelope job) s).1 = Done (Some job') /\
    is_terminal (Job.Status job') = true /\
    rdb (handleDelivery w (Envelope job) s).2 !! ("job:" +:+ Job.ID job)
    = Some (Build_Entry (Job.with_Status StatusInProgress job) (24 * Hour)).
Proof.
  intros Hret Hfirst Hlast.
  destruct (handleDelivery_store_returned job s Hret)
    as (job' & Hj & _ & Ht & Hr).
  exists job'. split; [exact Hj|]. split; [exact Ht|].
  rewrite Hr, Hfirst, Hlast. apply lookup_insert_eq.
Qed.

(** X13: a delivery changes no record of the status store other than
    the one of its job, and publishes nothing. *)
Theorem delivery_touches_one_record (job : Job.t) (s : State) (key : string) :
  key <> "job:" +:+ Job.ID job ->
  rdb (handleDelivery w (Envelope job) s).2 !! key = rdb s !! key /\
  queue (handleDelivery w (Envelope job) s).2 = queue s.
Proof.
  intros Hne.
  pose proof (handleDelivery_store job s) as [Hq HS]. cbv zeta in HS.
  split; [|exact Hq].
  destruct (handleDelivery w (Envelope job) s).1 as [j|msg].
  - destruct HS as (job' & _ & _ & _ & ->).
    destruct (redis_set_err w (S (sets s)));
      destruct (redis_set_err w (sets s));
      rewrite ?lookup_insert_ne by auto; reflexivity.
  - rewrite HS. destruct (redis_set_err w (sets s));
      rewrite ?lookup_insert_ne by auto; reflexivity.
Qed.

(** X14: the worker keeps the identity of a job: when it goes through a
    delivery, the id, source reference, operations and creation time of
    the final record are those of the envelope.  A Completed record has a
    completion time and the error text of the envelope; a Failed record
    has the completion time and the results of the envelope. *)
Theorem delivery_keeps_identity (job : Job.t) (s : State) :
  returned (handleDelivery w (Envelope job) s).1 = true ->
  exists job',
    (handleDelivery w (Envelope job) s).1 = Done (Some job') /\
    Job.ID job' = Job.ID job /\
    Job.ImageURL job' = Job.ImageURL job /\
    Job.Operations job' = Job.Operations job /\
    Job.CreatedAt job' = Job.CreatedAt job /\
    ((Job.Status job' = StatusCompleted /\
      is_Some (Job.CompletedAt job') /\ Job.Error job' = Job.Error job)
     \/
     (Job.Status job' = StatusFailed /\
      Job.CompletedAt job' = Job.CompletedAt job /\
      Job.Results job' = Job.Results job)).
Proof.
  rewrite handleDelivery_Envelope. cbv zeta.
  match goal with
  | |- context [ProcessJob w ?j ?x] =>
      pose proof (ProcessJob_identity j x) as HI;
      destruct (ProcessJob w j x) as [[[job1 err]|msg] s1]
  end; simpl; [intros _|discriminate].
  simpl in HI. destruct HI as (Hid & Hurl & Hops & Hc & He & Hcase).
  destruct err as [e|]; eexists; (split; [reflexivity|]); simpl.
  - subst job1. simpl. repeat split. right. repeat split.
  - destruct Hcase as [Hst Hsome]. repeat split; try assumption.
    left. repeat split; assumption.
Qed.

Lemma handleDelivery_keys (job : Job.t) (s : State) :
  let r := handleDelivery w (Envelope job) s in
  map fst (statusWrites (trace r.2))
  = map fst (statusWrites (trace s))
      ++ match r.1 with
         | Done _ => ["job:" +:+ Job.ID job; "job:" +:+ Job.ID job]
         | Panic _ => ["job:" +:+ Job.ID job]
         end.
Proof.
  cbv zeta.
  destruct (handleDelivery_statusWrites w job s) as (rest & Hw & Hcase).
  rewrite Hw, map_app.
  destruct (handleDelivery w (Envelope job) s).1 as [j|msg].
  - destruct Hcase as (st & -> & _). reflexivity.
  - rewrite Hcase. reflexivity.
Qed.

Lemma consume_cons (msg : Delivery) (msgs : list Delivery) (s : State) :
  consume w (msg :: msgs) s
  = match handleDelivery w msg s with
    | (Done _, s1) => consume w msgs s1
    | (Panic m, s1) => (Panic m, s1)
    end.
Proof. reflexivity. Qed.

(** X15: over a run of deliveries the worker writes to the status store
    under the keys of the parsed envelopes, in the order of delivery, and
    not at all for a payload that does not parse.  When it goes through
    the whole run, it has written twice for every parsed envelope.  When
    the imaging library panics in a delivery, it has written twice for
    every parsed envelope before that one, once for that one, and the
    envelopes after it are not handled. *)
Theorem consume_status_keys (msgs : list Delivery) (s : State) :
  let r := consume w msgs s in
  exists written,
    map fst (statusWrites (trace r.2))
    = map fst (statusWrites (trace s)) ++ written /\
    match r.1 with
    | Done _ => written = deliveryKeys msgs
    | Panic _ =>
        exists before job after,
          msgs = before ++ Envelope job :: after /\
          written = deliveryKeys before ++ ["job:" +:+ Job.ID job]
    end.
Proof.
  cbv zeta. revert s. induction msgs as [|msg msgs IH]; intros s.
  - exists []. simpl. rewrite app_nil_r. auto.
  - rewrite consume_cons. destruct msg as [e|job].
    + change (handleDelivery w (Malformed e) s) with (Done (@None Job.t), s).
      cbv beta iota.
      destruct (IH s) as (written & Hw & Hcase).
      exists written. split; [exact Hw|].
      destruct (consume w msgs s).1 as [u|m]; [exact Hcase|].
      destruct Hcase as (before & job & after & -> & ->).
      exists (Malformed e :: before), job, after. auto.
    + pose proof (handleDelivery_keys job s) as Hk. cbv zeta in Hk.
      destruct (handleDelivery w (Envelope job) s) as [[j|m] s1];
        simpl in Hk.
      * destruct (IH s1) as (written & Hw & Hcase).
        exists (["job:" +:+ Job.ID job; "job:" +:+ Job.ID job] ++ written).
        split; [rewrite Hw, Hk, <- app_assoc; reflexivity|].
        destruct (consume w msgs s1).1 as [u|m].
        -- rewrite Hcase. reflexivity.
        -- destruct Hcase as (before & job' & after & -> & ->).
           exists (Envelope job :: before), job', after. auto.
      * exists ["job:" +:+ Job.ID job]. split; [exact Hk|].
        exists [], job, msgs. auto.
Qed.

(** ** Keys of repeated work *)

Lemma append_length (a b : string) :
  String.length (a +:+ b) = (String.length a + String.length b)%nat.
Proof. induction a as [|c a IH]; simpl; [reflexivity | rewrite IH; reflexivity]. Qed.

Lemma append_inj_r (a b x : string) : a +:+ x = b +:+ x -> a = b.
Proof.
  revert b. induction a as [|c a IH]; intros [|d b] E; simpl in E.
  - reflexivity.
  - apply (f_equal String.length) in E. simpl in E.
    rewrite !append_length in E. simpl in E. lia.
  - apply (f_equal String.length) in E. simpl in E.
    rewrite !append_length in E. simpl in E. lia.
  - injection E as -> E. f_equal. apply IH. exact E.
Qed.

(** X16: two operations that name the same explicit output key and the
    same format write to the same object, whatever their jobs and
    rasters: the later upload replaces the earlier one. *)
Theorem same_explicit_key_same_object (img1 img2 : Image)
    (op1 op2 : ImageOperation.t) (jobID1 jobID2 : string) (s t : State)
    (res1 res2 : ProcessedImage.t) :
  ImageOperation.OutputKey op1 <> "" ->
  ImageOperation.OutputKey op2 = ImageOperation.OutputKey op1 ->
  ImageOperation.Format op2 = ImageOperation.Format op1 ->
  (processOperation w img1 op1 jobID1 s).1 = Done (Ok res1) ->
  (processOperation w img2 op2 jobID2 t).1 = Done (Ok res2) ->
  ProcessedImage.OutputURL res2 = ProcessedImage.OutputURL res1 /\
  exists obj,
    bucket (processOperation w img2 op2 jobID2 t).2
    = <[ProcessedImage.OutputURL res1 := obj]> (bucket t).
Proof.
  intros Hk Hk2 Hf H1 H2.
  apply processOperation_Ok_fst in H1, H2.
  destruct (processOperation_Ok w _ _ _ _ _ _ H1)
    as (o1 & b1 & _ & _ & _ & _ & _ & Hu1 & _).
  destruct (processOperation_Ok w _ _ _ _ _ _ H2)
    as (o2 & b2 & _ & _ & _ & _ & _ & Hu2 & _ & _ & _ & Hb2 & _).
  cbv zeta in *. unfold keyFor in *.
  apply String.eqb_neq in Hk. rewrite Hk2, Hf in Hu2, Hb2.
  rewrite Hk in Hu1, Hu2, Hb2.
  split; [congruence|]. rewrite Hu1. eauto.
Qed.

(** X17: an operation without explicit key that is processed twice for
    the same job, with UUIDs that differ in their first eight characters,
    is stored under two different keys: the second run leaves the object
    of the first in place. *)
Theorem derived_keys_accumulate (img1 img2 : Image) (op : ImageOperation.t)
    (jobID : string) (s t : State) (res1 res2 : ProcessedImage.t) :
  ImageOperation.OutputKey op = "" ->
  String.substring 0 8 (uuid_new w (uuids s))
    <> String.substring 0 8 (uuid_new w (uuids t)) ->
  (processOperation w img1 op jobID s).1 = Done (Ok res1) ->
  (processOperation w img2 op jobID t).1 = Done (Ok res2) ->
  ProcessedImage.OutputURL res1 <> ProcessedImage.OutputURL res2 /\
  bucket (processOperation w img2 op jobID t).2
    !! ProcessedImage.OutputURL res1
  = bucket t !! ProcessedImage.OutputURL res1.
Proof.
  intros Hk Htok H1 H2.
  apply processOperation_Ok_fst in H1, H2.
  destruct (processOperation_Ok w _ _ _ _ _ _ H1)
    as (o1 & b1 & _ & _ & _ & _ & _ & Hu1 & _).
  destruct (processOperation_Ok w _ _ _ _ _ _ H2)
    as (o2 & b2 & _ & _ & _ & _ & _ & Hu2 & _ & _ & _ & Hb2 & _).
  cbv zeta in *. unfold keyFor in *. rewrite Hk in *. simpl in Hu1, Hu2, Hb2.
  assert (Hne : ProcessedImage.OutputURL res1 <> ProcessedImage.OutputURL res2).
  { rewrite Hu1, Hu2. intros E. apply Htok.
    apply append_inj_r in E.
    do 5 apply String.app_inj in E. exact E. }
  split; [exact Hne|].
  rewrite Hb2, <- Hu2. apply lookup_insert_ne. auto.
Qed.

End WorkerStore.

(** * Properties of the admission API and of the status service *)

Section Services.
Context `{Imaging}.
Variable w : World.

(** X18: a request that is not a POST, whose body does not parse, or
    whose source reference is empty is answered with a client error and
    has no effect: no UUID is drawn, nothing is stored or published. *)
Theorem rejected_request_changes_nothing (method : string)
    (body : result CreateJobRequest) (s : State) :
  method <> "POST"
    \/ (exists e, body = Err e)
    \/ (exists req, body = Ok req /\ req_ImageURL req = "") ->
  exists msg code,
    handleCreateJob w method body s = (HttpError msg code, s) /\
    (code = 405 \/ code = 400).
Proof.
  intros Hcase. unfold handleCreateJob, ret.
  destruct (String.eqb_spec method "POST") as [Hm|Hm]; simpl; [|eauto].
  destruct Hcase as [Hc|[[e ->]|(req & -> & Hu)]]; [contradiction|eauto|].
  rewrite Hu. simpl. eauto.
Qed.

(** What an answered admission has done. *)
Lemma handleCreateJob_outcome (req : CreateJobRequest) (s : State) :
  req_ImageURL req <> "" ->
  let job :=
    Job.mk (uuid_new w (uuids s)) StatusPending (req_ImageURL req)
      (if (length (req_Operations req) =? 0)%nat
       then [ImageOperation.mk OpResize 800 600 FormatJPEG 90 "" ""]
       else req_Operations req)
      (clock w (ticks s)) None [] "" in
  let (resp, s') := handleCreateJob w "POST" (Ok req) s in
  match redis_set_err w (sets s), publish_err w (pubs s) with
  | None, None =>
      resp = JobResponse "Job created successfully" job /\
      rdb s' = <["job:" +:+ Job.ID job := Build_Entry job (24 * Hour)]> (rdb s) /\
      queue s' = queue s ++ [job]
  | None, Some _ =>
      resp = HttpError "failed to publish job" 500 /\
      rdb s' = <["job:" +:+ Job.ID job := Build_Entry job (24 * Hour)]> (rdb s) /\
      queue s' = queue s
  | Some _, _ =>
      resp = HttpError "failed to save job" 500 /\
      rdb s' = rdb s /\ queue s' = queue s
  end.
Proof.
  intros Hurl.
  unfold handleCreateJob, api_saveJob, Publish, rdbSet, uuidNew, Now,
    bind, ret.
  simpl.
  destruct (String.eqb_spec (req_ImageURL req) "") as [E|_]; [contradiction|].
  simpl.
  destruct (redis_set_err w (sets s)); simpl; [auto|].
  destruct (publish_err w (pubs s)); simpl; auto.
Qed.

(** X19: operations given in the request are taken over as they are, in
    their order and without any check of their parameters; the job gets a
    fresh UUID as id, the current time as creation time, status Pending,
    no results and no error, and is stored under [job:<id>] with an expiry
    of 24 hours and then published. *)
Theorem admission_takes_operations_as_given (req : CreateJobRequest)
    (s : State) :
  req_ImageURL req <> "" ->
  req_Operations req <> [] ->
  redis_set_err w (sets s) = None ->
  publish_err w (pubs s) = None ->
  let job :=
    Job.mk (uuid_new w (uuids s)) StatusPending (req_ImageURL req)
      (req_Operations req) (clock w (ticks s)) None [] "" in
  let r := handleCreateJob w "POST" (Ok req) s in
  r.1 = JobResponse "Job created successfully" job /\
  rdb r.2 !! ("job:" +:+ uuid_new w (uuids s))
  = Some (Build_Entry job (24 * Hour)) /\
  queue r.2 = queue s ++ [job].
Proof.
  intros Hurl Hops Hr Hp.
  pose proof (handleCreateJob_outcome req s Hurl) as HO. cbv zeta in *.
  destruct (handleCreateJob w "POST" (Ok req) s) as [resp s'].
  rewrite Hr, Hp in HO.
  destruct (req_Operations req) as [|op ops]; [contradiction|].
  simpl in HO. simpl. destruct HO as (-> & -> & ->).
  split; [reflexivity|]. split; [apply lookup_insert_eq | reflexivity].
Qed.

(** X20: when the job is stored and the publish fails, the answer is a
    server error, and the Pending record stays in the status store with
    no message in the queue: no worker will take it up. *)
Theorem failed_publish_leaves_pending_record (req : CreateJobRequest)
    (s : State) (e : string) :
  req_ImageURL req <> "" ->
  redis_set_err w (sets s) = None ->
  publish_err w (pubs s) = Some e ->
  let r := handleCreateJob w "POST" (Ok req) s in
  r.1 = HttpError "failed to publish job" 500 /\
  queue r.2 = queue s /\
  exists job,
    rdb r.2 !! ("job:" +:+ uuid_new w (uuids s))
    = Some (Build_Entry job (24 * Hour)) /\
    Job.Status job = StatusPending /\ Job.ID job = uuid_new w (uuids s).
Proof.
  intros Hurl Hr Hp.
  pose proof (handleCreateJob_outcome req s Hurl) as HO. cbv zeta in *.
  destruct (handleCreateJob w "POST" (Ok req) s) as [resp s'].
  rewrite Hr, Hp in HO. simpl in HO. simpl. destruct HO as (-> & -> & ->).
  split; [reflexivity|]. split; [reflexivity|].
  eexists. split; [apply lookup_insert_eq|]. split; reflexivity.
Qed.

(** X21: whatever the request, the API publishes at most one job, and
    only a job that it has just stored: a Pending job without results,
    found under [job:<id>] in the status store. *)
Theorem published_jobs_are_stored (method : string)
    (body : result CreateJobRequest) (s : State) :
  let s' := (handleCreateJob w method body s).2 in
  queue s' = queue s \/
  exists job,
    queue s' = queue s ++ [job] /\
    rdb s' !! ("job:" +:+ Job.ID job) = Some (Build_Entry job (24 * Hour)) /\
    Job.Status job = StatusPending /\ Job.Results job = [].
Proof.
  unfold handleCreateJob, api_saveJob, Publish, rdbSet, uuidNew, Now,
    bind, ret.
  repeat case_match; simpl in *; simplify_eq; simpl; auto;
    right; eexists; (split; [reflexivity|]); simpl;
    (split; [apply lookup_insert_eq|]); split; reflexivity.
Qed.

(** ** The status service *)


Lemma Split_without_separator (s : string) (sep : ascii) :
  occurrences sep s = 0%nat -> Split s sep = [s].
Proof.
  induction s as [|c s IH]; simpl; [reflexivity|].
  destruct (Ascii.eqb c sep); simpl; [discriminate|].
  intros Hz. rewrite (IH Hz). reflexivity.
Qed.


Lemma handleGetJob_by_id (failure : option string) (id : string) (s : State) :
  occurrences "/" id = 0%nat ->
  handleGetJob failure "GET" ("/jobs/" +:+ id) s
  = match failure with
    | Some _ => StatusError "failed to get job" 500
    | None =>
        match rdb s !! ("job:" +:+ id) with
        | Some entry => StatusJob (envelope entry)
        | None => StatusError "job not found" 404
        end
    end.
Proof.
  intros Hid. unfold handleGetJob. simpl.
  change ("" +:+ id) with id.
  rewrite (Split_without_separator id "/" Hid). simpl.
  unfold getJob. destruct failure; [reflexivity|].
  destruct (rdb s !! _); reflexivity.
Qed.

(** X23: for an id without slash, GET [/jobs/<id>] answers with the
    envelope stored under [job:<id>], with 404 [job not found] when there
    is none, and with 500 when the store cannot be read: an absent job is
    told apart from every stored status. *)
Theorem get_job_by_id (failure : option string) (id : string) (s : State) :
  occurrences "/" id = 0%nat ->
  handleGetJob failure "GET" ("/jobs/" +:+ id) s
  = match failure with
    | Some _ => StatusError "failed to get job" 500
    | None =>
        match rdb s !! ("job:" +:+ id) with
        | Some entry => StatusJob (envelope entry)
        | None => StatusError "job not found" 404
        end
    end.
Proof.
  intros Hid. unfold handleGetJob. simpl.
  change ("" +:+ id) with id.
  rewrite (Split_without_separator id "/" Hid). simpl.
  unfold getJob. destruct failure; [reflexivity|].
  destruct (rdb s !! _); reflexivity.
Qed.

(** X24: from admission to report.  A job that the API has answered
    with is reported as Pending by the status service; after a worker, in
    whatever world, has gone through its message and its last write was
    accepted, the status service reports the job in a terminal state, as
    the worker left it. *)
Theorem admitted_job_is_reported (w' : World) (req : CreateJobRequest)
    (s : State) (msg : string) (job : Job.t) :
  let s1 := (handleCreateJob w "POST" (Ok req) s).2 in
  (handleCreateJob w "POST" (Ok req) s).1 = JobResponse msg job ->
  occurrences "/" (Job.ID job) = 0%nat ->
  redis_set_err w' (S (sets s1)) = None ->
  handleGetJob None "GET" ("/jobs/" +:+ Job.ID job) s1 = StatusJob job /\
  Job.Status job = StatusPending /\
  (returned (handleDelivery w' (Envelope job) s1).1 = true ->
   exists job',
     (handleDelivery w' (Envelope job) s1).1 = Done (Some job') /\
     is_terminal (Job.Status job') = true /\
     handleGetJob None "GET" ("/jobs/" +:+ Job.ID job)
       (handleDelivery w' (Envelope job) s1).2
     = StatusJob job').
Proof.
  intros s1 Hresp Hid Hset.
  assert (Hstored : rdb s1 !! ("job:" +:+ Job.ID job)
                    = Some (Build_Entry job (24 * Hour)) /\
                    Job.Status job = StatusPending).
  { subst s1.
    destruct (String.eqb_spec (req_ImageURL req) "") as [Hu|Hu].
    - exfalso. revert Hresp. unfold handleCreateJob, ret. simpl.
      rewrite Hu. simpl. discriminate.
    - pose proof (handleCreateJob_outcome req s Hu) as HO. cbv zeta in HO.
      destruct (handleCreateJob w "POST" (Ok req) s) as [resp s'].
      simpl in Hresp. subst resp. simpl.
      destruct (redis_set_err w (sets s));
        [destruct HO as [HO _]; discriminate|].
      destruct (publish_err w (pubs s));
        [destruct HO as [HO _]; discriminate|].
      destruct HO as (HO & -> & _). injection HO as _ ->. simpl.
      split; [apply lookup_insert_eq | reflexivity]. }
  destruct Hstored as [Hstored Hpending].
  split; [rewrite (handleGetJob_by_id None _ s1 Hid), Hstored; reflexivity|].
  split; [exact Hpending|].
  intros Hret.
  destruct (handleDelivery_store_returned w' job s1 Hret)
    as (job' & Hj & _ & Ht & Hr).
  exists job'. split; [exact Hj|]. split; [exact Ht|].
  rewrite (handleGetJob_by_id None _ _ Hid), Hr, Hset, lookup_insert_eq.
  reflexivity.
Qed.

End Services.
(** * Properties of the start-up *)

Section Startup.

Lemma waitForRedis_loop_success (ping : nat -> option string)
    (maxRetries : nat) (retryDelay : Z) (k remaining i : nat) (sleep : Z) :
  (k < remaining)%nat ->
  ping (i + k)%nat = None ->
  (forall j, (j < k)%nat -> ping (i + j)%nat <> None) ->
  waitForRedis_loop ping maxRetries retryDelay remaining i sleep
  = Build_Waited None (S (i + k)) (sleep + Z.of_nat k * retryDelay).
Proof.
  revert remaining i sleep.
  induction k as [|k IH]; intros remaining i sleep Hk Hok Hbefore;
    (destruct remaining as [|remaining]; [lia|]); simpl.
  - rewrite Nat.add_0_r in Hok. rewrite Hok.
    f_equal; [f_equal; lia | lia].
  - specialize (Hbefore 0%nat ltac:(lia)) as H0.
    rewrite Nat.add_0_r in H0.
    destruct (ping i); [|contradiction].
    rewrite (IH remaining (S i) (sleep + retryDelay)).
    + f_equal; [f_equal; lia | lia].
    + lia.
    + rewrite <- Hok. f_equal. lia.
    + intros j Hj. specialize (Hbefore (S j) ltac:(lia)).
      replace (S i + j)%nat with (i + S j)%nat by lia. exact Hbefore.
Qed.

Lemma waitForRedis_loop_failure (ping : nat -> option string)
    (maxRetries : nat) (retryDelay : Z) (remaining i : nat) (sleep : Z) :
  (forall j, (j < remaining)%nat -> ping (i + j)%nat <> None) ->
  waitForRedis_loop ping maxRetries retryDelay remaining i sleep
  = Build_Waited
      (Some ("Redis not ready after " +:+ pretty (Z.of_nat maxRetries)
               +:+ " attempts"))
      (i + remaining) (sleep + Z.of_nat remaining * retryDelay).
Proof.
  revert i sleep.
  induction remaining as [|remaining IH]; intros i sleep Hall; simpl.
  - f_equal; lia.
  - specialize (Hall 0%nat ltac:(lia)) as H0. rewrite Nat.add_0_r in H0.
    destruct (ping i); [|contradiction].
    rewrite IH.
    + f_equal; lia.
    + intros j Hj. specialize (Hall (S j) ltac:(lia)).
      replace (S i + j)%nat with (i + S j)%nat by lia. exact Hall.
Qed.

(** X25: waitForRedis returns at the first ping that succeeds among the
    first thirty: after [i] failed pings it has pinged [i + 1] times and
    slept [i] seconds, and it returns no error. *)
Theorem waitForRedis_returns_at_first_success (ping : nat -> option string)
    (i : nat) :
  (i < 30)%nat ->
  ping i = None ->
  (forall j, (j < i)%nat -> ping j <> None) ->
  waitForRedis ping = Build_Waited None (S i) (Z.of_nat i * Second).
Proof.
  intros Hi Hok Hbefore. unfold waitForRedis.
  rewrite (waitForRedis_loop_success ping 30 Second i 30 0 0 Hi Hok Hbefore).
  reflexivity.
Qed.

(** X26: when the first thirty pings all fail, waitForRedis gives up
    with [Redis not ready after 30 attempts], after thirty pings and
    thirty seconds of sleep; a later ping is never made. *)
Theorem waitForRedis_gives_up_after_30 (ping : nat -> option string) :
  (forall j, (j < 30)%nat -> ping j <> None) ->
  waitForRedis ping
  = Build_Waited (Some "Redis not ready after 30 attempts") 30 (30 * Second).
Proof.
  intros Hall. unfold waitForRedis.
  rewrite (waitForRedis_loop_failure ping 30 Second 30 0 0 Hall).
  reflexivity.
Qed.

Variable b : Boot.

Lemma ensureBucket_buckets (c : MinIOClient) (m : Minio) :
  let r := ensureBucket b c m in
  (buckets r.2 = buckets m \/
   ((BucketName c ∉ buckets m) /\ r.1 = None /\
    makeCalls r.2 = S (makeCalls m) /\
    buckets r.2 = {[BucketName c]} ∪ buckets m)) /\
  (r.1 = None -> BucketName c ∈ buckets r.2) /\
  (BucketName c ∈ buckets m -> makeCalls r.2 = makeCalls m).
Proof.
  unfold ensureBucket.
  destruct (bucket_exists_err b (existsCalls m)); simpl.
  - split; [auto|]. split; [discriminate|reflexivity].
  - destruct (bool_decide_reflect (BucketName c ∈ buckets m)) as [Hin|Hnin];
      simpl.
    + split; [auto|]. split; auto.
    + destruct (make_bucket_err b (makeCalls m)); simpl.
      * split; [auto|]. split; [discriminate|contradiction].
      * split; [right; auto|]. split; [set_solver|contradiction].
Qed.

(** X27: a client that NewMinIOClient returns is for the bucket named
    by MINIO_BUCKET, or [images] when the variable is not set, and that
    bucket exists afterwards; no other bucket is created and none is
    removed. *)
Theorem NewMinIOClient_ensures_bucket (m : Minio) (c : MinIOClient) :
  (NewMinIOClient b m).1 = Ok c ->
  BucketName c = getEnv (environ b) "MINIO_BUCKET" "images" /\
  BucketName c ∈ buckets (NewMinIOClient b m).2 /\
  buckets (NewMinIOClient b m).2 = {[BucketName c]} ∪ buckets m.
Proof.
  unfold NewMinIOClient.
  destruct (minio_new_err b _); simpl; [discriminate|].
  match goal with
  | |- context [ensureBucket b ?c0 m] =>
      pose proof (ensureBucket_buckets c0 m) as (Hb & Hin & _);
      destruct (ensureBucket b c0 m) as [[e|] m']
  end; simpl in *; [discriminate|].
  intros E. injection E as <-. simpl in *.
  split; [reflexivity|]. specialize (Hin eq_refl). split; [exact Hin|].
  destruct Hb as [Hb|(_ & _ & _ & Hb)]; rewrite Hb in *; [|reflexivity].
  symmetry. apply subseteq_union_1_L, singleton_subseteq_l. exact Hin.
Qed.

(** When the bucket already exists, ensureBucket does not call
    MakeBucket and leaves the set of buckets as it is, whether the
    existence check succeeds or fails. *)
Lemma ensureBucket_existing_bucket (c : MinIOClient) (m : Minio) :
  BucketName c ∈ buckets m ->
  makeCalls (ensureBucket b c m).2 = makeCalls m /\
  buckets (ensureBucket b c m).2 = buckets m /\
  existsCalls (ensureBucket b c m).2 = S (existsCalls m).
Proof.
  intros Hin. unfold ensureBucket.
  destruct (bucket_exists_err b (existsCalls m)); simpl; [auto|].
  rewrite bool_decide_eq_true_2 by exact Hin. simpl. auto.
Qed.

Lemma NewMinIOClient_buckets (m : Minio) :
  let name := getEnv (environ b) "MINIO_BUCKET" "images" in
  let r := NewMinIOClient b m in
  buckets m ⊆ buckets r.2 /\
  buckets r.2 ⊆ {[name]} ∪ buckets m /\
  (forall c, r.1 = Ok c -> name ∈ buckets r.2) /\
  (name ∈ buckets m -> makeCalls r.2 = makeCalls m).
Proof.
  unfold NewMinIOClient.
  destruct (minio_new_err b _); simpl.
  { split; [set_solver|]. split; [set_solver|]. split; [discriminate|auto]. }
  match goal with
  | |- context [ensureBucket b ?c0 m] =>
      pose proof (ensureBucket_buckets c0 m) as (Hb & Hin & Hmk);
      destruct (ensureBucket b c0 m) as [[e|] m']
  end; simpl in *;
    (split; [destruct Hb as [->|(_ & _ & _ & ->)]; set_solver|]);
    (split; [destruct Hb as [->|(_ & _ & _ & ->)]; set_solver|]);
    (split; [|exact Hmk]).
  - discriminate.
  - intros c _. apply Hin. reflexivity.
Qed.

Lemma WaitForMinIO_loop_buckets (maxRetries : nat) (retryDelay : Z)
    (remaining tried : nat) (sleep : Z) (m : Minio) :
  let name := getEnv (environ b) "MINIO_BUCKET" "images" in
  let r := WaitForMinIO_loop b maxRetries retryDelay remaining tried sleep m in
  buckets m ⊆ buckets r.2 /\
  buckets r.2 ⊆ {[name]} ∪ buckets m /\
  (tried <= attempts r.1 <= tried + remaining)%nat /\
  slept r.1 = sleep + (Z.of_nat (attempts r.1) - Z.of_nat tried
                       - match waitErr r.1 with
                         | Some _ => 0
                         | None => 1
                         end) * retryDelay /\
  (waitErr r.1 = None -> name ∈ buckets r.2 /\ (tried < attempts r.1)%nat).
Proof.
  cbv zeta. revert tried sleep m.
  induction remaining as [|remaining IH]; intros tried sleep m; simpl.
  - split; [set_solver|]. split; [set_solver|]. split; [lia|].
    split; [lia|discriminate].
  - pose proof (NewMinIOClient_buckets m) as (H1 & H2 & H3 & _).
    cbv zeta in *.
    destruct (NewMinIOClient b m) as [[c|e] m']; simpl in *.
    + split; [exact H1|]. split; [exact H2|]. split; [lia|].
      split; [lia|]. intros _. split; [eapply H3; reflexivity | lia].
    + destruct (IH (S tried) (sleep + retryDelay) m')
        as (I1 & I2 & I3 & I4 & I5).
      split; [transitivity (buckets m'); assumption|].
      split.
      { etransitivity; [exact I2|].
        apply union_least; [apply union_subseteq_l | exact H2]. }
      split; [lia|].
      split; [rewrite I4; destruct (waitErr _); lia|].
      intros Hok. destruct (I5 Hok). split; [assumption|lia].
Qed.

(** X28: when WaitForMinIO returns no error, the configured bucket
    exists, between one and thirty attempts were made, and one second was
    slept after every attempt but the last. *)
Theorem WaitForMinIO_success (m : Minio) :
  waitErr (WaitForMinIO b m).1 = None ->
  getEnv (environ b) "MINIO_BUCKET" "images" ∈ buckets (WaitForMinIO b m).2 /\
  (1 <= attempts (WaitForMinIO b m).1 <= 30)%nat /\
  slept (WaitForMinIO b m).1
  = (Z.of_nat (attempts (WaitForMinIO b m).1) - 1) * Second.
Proof.
  intros Hok. unfold WaitForMinIO in *.
  pose proof (WaitForMinIO_loop_buckets 30 Second 30 0 0 m)
    as (_ & _ & Hatt & Hslept & Hin).
  cbv zeta in *. rewrite Hok in Hslept.
  destruct (Hin Hok) as [Hb Hpos].
  split; [exact Hb|]. split; [lia|]. rewrite Hslept. lia.
Qed.

(** X29: whatever its outcome, WaitForMinIO removes no bucket and
    creates no bucket other than the configured one. *)
Theorem WaitForMinIO_only_creates_configured_bucket (m : Minio) :
  buckets m ⊆ buckets (WaitForMinIO b m).2 /\
  buckets (WaitForMinIO b m).2
    ⊆ {[getEnv (environ b) "MINIO_BUCKET" "images"]} ∪ buckets m.
Proof.
  unfold WaitForMinIO.
  pose proof (WaitForMinIO_loop_buckets 30 Second 30 0 0 m) as (H1 & H2 & _).
  split; assumption.
Qed.

(** X30: main waits for the object store and then builds its client:
    after a wait without error the second NewMinIOClient finds the bucket
    and never calls MakeBucket. *)
Theorem client_after_wait_makes_no_bucket (m : Minio) :
  waitErr (WaitForMinIO b m).1 = None ->
  makeCalls (NewMinIOClient b (WaitForMinIO b m).2).2
  = makeCalls (WaitForMinIO b m).2 /\
  buckets (NewMinIOClient b (WaitForMinIO b m).2).2
  = buckets (WaitForMinIO b m).2.
Proof.
  intros Hok.
  assert (Hin : getEnv (environ b) "MINIO_BUCKET" "images"
                  ∈ buckets (WaitForMinIO b m).2).
  { unfold WaitForMinIO in *.
    pose proof (WaitForMinIO_loop_buckets 30 Second 30 0 0 m)
      as (_ & _ & _ & _ & Hw).
    cbv zeta in Hw. apply Hw. exact Hok. }
  pose proof (NewMinIOClient_buckets (WaitForMinIO b m).2)
    as (H1 & H2 & _ & Hmk).
  cbv zeta in *. split; [apply Hmk; exact Hin|].
  apply set_eq. intros x. split; [|apply H1].
  intros Hx. apply H2 in Hx.
  apply elem_of_union in Hx as [Hx|Hx]; [|exact Hx].
  apply elem_of_singleton in Hx. subst x. exact Hin.
Qed.

End Startup.
(** * Concrete runs *)

#[local] Existing Instance BoundsImaging.

(** C1: with two resize operations on a 100 x 80 source, the second call
    of applyOperation is given the 100 x 80 source, not the 50 x 40 output
    of the first. *)
Lemma operations_are_not_cumulative :
  let job := jobOf [resizeSmall; resizeTiny] in
  (downloadImage calm (Job.ImageURL job) start).1 = Ok (raster 100 80) /\
  applied (trace (ProcessJob calm job start).2)
  = [(raster 100 80, resizeSmall, raster 50 40);
     (raster 100 80, resizeTiny, raster 20 10)] /\
  ~ cumulative (applied (trace (ProcessJob calm job start).2)).
Proof.
  cbv zeta.
  assert (E : applied (trace (ProcessJob calm
                                (jobOf [resizeSmall; resizeTiny]) start).2)
              = [(raster 100 80, resizeSmall, raster 50 40);
                 (raster 100 80, resizeTiny, raster 20 10)]) by reflexivity.
  split; [reflexivity|]. split; [exact E|].
  rewrite E. intros Hc.
  specialize (Hc 0%nat (raster 100 80, resizeSmall, raster 50 40)
                (raster 100 80, resizeTiny, raster 20 10) eq_refl eq_refl).
  simpl in Hc. discriminate Hc.
Qed.

Lemma ProcessJob_operations_on_source_witness :
  let job := jobOf [resizeSmall; hugeOp; resizeTiny] in
  (downloadImage calm (Job.ImageURL job) start).1 = Ok (raster 100 80) /\
  exists calls,
    applied (trace (ProcessJob calm job start).2)
    = applied (trace start) ++ calls /\
    (forall (i : nat) c,
       calls !! i = Some c ->
       exists op, Job.Operations job !! i = Some op /\
                  c.1.1 = raster 100 80 /\ c.1.2 = op /\
                  applyOperation (raster 100 80) op = Done (Ok c.2)) /\
    exists op, Job.Operations job !! length calls = Some op /\
               applyOperation (raster 100 80) op
               = Panic "image: NewNRGBA Rectangle has huge or negative dimensions".
Proof.
  split; [reflexivity|].
  apply (ProcessJob_operations_on_source calm
           (jobOf [resizeSmall; hugeOp; resizeTiny]) start (raster 100 80)).
  reflexivity.
Defined.

(** The same job without the operation that panics: both operations are
    reached, each on the source. *)
Example both_operations_reached :
  let job := jobOf [resizeSmall; resizeTiny] in
  returned (ProcessJob calm job start).1 = true /\
  applied (trace (ProcessJob calm job start).2)
  = [(raster 100 80, resizeSmall, raster 50 40);
     (raster 100 80, resizeTiny, raster 20 10)] /\
  uploads (trace (ProcessJob calm job start).2)
  = ["processed/j1/resize_f81d4fa0.jpg"; "processed/j1/resize_f81d4fa1.png"].
Proof. vm_compute. repeat split. Qed.

(** C2: a job is delivered and completed; the same message is delivered
    again, and the first write of the second delivery puts InProgress over
    the Completed record. *)
Lemma redelivery_reverts_completed_record :
  let msg := Envelope (jobOf [resizeSmall]) in
  let s1 := (handleDelivery calm msg start).2 in
  let s2 := (markInProgress calm (jobOf [resizeSmall]) s1).2 in
  (Job.Status <$> (envelope <$> rdb s1 !! "job:j1")) = Some StatusCompleted /\
  (Job.Status <$> (envelope <$> rdb s2 !! "job:j1")) = Some StatusInProgress /\
  statusWrites (trace (consume calm [msg; msg] start).2)
  = [("job:j1", StatusInProgress); ("job:j1", StatusCompleted);
     ("job:j1", StatusInProgress); ("job:j1", StatusCompleted)] /\
  ~ neverReverts (statusWrites (trace (consume calm [msg; msg] start).2)).
Proof.
  cbv zeta.
  assert (E : statusWrites
                (trace (consume calm [Envelope (jobOf [resizeSmall]);
                                      Envelope (jobOf [resizeSmall])] start).2)
              = [("job:j1", StatusInProgress); ("job:j1", StatusCompleted);
                 ("job:j1", StatusInProgress); ("job:j1", StatusCompleted)])
    by (vm_compute; reflexivity).
  split; [vm_compute; reflexivity|]. split; [vm_compute; reflexivity|].
  split; [exact E|].
  rewrite E. intros Hn.
  specialize (Hn 1%nat 2%nat "job:j1" StatusCompleted StatusInProgress).
  assert (F : is_terminal StatusInProgress = true)
    by (apply Hn; [lia | reflexivity | reflexivity | reflexivity]).
  discriminate F.
Qed.

(** A delivery that panics: a resize to a width of 2^62 ends the worker
    inside imaging.Resize.  The record of the job stays InProgress, the
    operation before the resize has been uploaded, and the message that
    was delivered next is not handled. *)
Example panic_leaves_in_progress :
  let job := jobOf [resizeSmall; hugeOp; resizeTiny] in
  let r := consume calm [Envelope job; Envelope storedSourceJob] start in
  r.1 = Panic "image: NewNRGBA Rectangle has huge or negative dimensions" /\
  statusWrites (trace r.2) = [("job:j1", StatusInProgress)] /\
  (Job.Status <$> (envelope <$> rdb r.2 !! "job:j1")) = Some StatusInProgress /\
  rdb r.2 !! "job:j2" = None /\
  uploads (trace r.2) = ["processed/j1/resize_f81d4fa0.jpg"].
Proof. vm_compute. repeat split. Qed.

Lemma results_bounded_post_terminal_witness :
  let job := jobOf [resizeSmall; resizeTiny] in
  returned (handleDelivery flaky (Envelope job) start).1 = true /\
  (length (Job.Results job) <= length (Job.Operations job))%nat /\
  exists job',
    (handleDelivery flaky (Envelope job) start).1 = Done (Some job') /\
    is_terminal (Job.Status job') = true /\
    (0 <= length (Job.Results job') <= length (Job.Operations job'))%nat.
Proof.
  split; [reflexivity|]. split; [simpl; lia|].
  apply (results_bounded_post_terminal flaky
           (jobOf [resizeSmall; resizeTiny]) start).
  - reflexivity.
  - simpl. lia.
Defined.

(** C4: the second operation is out of every documented range (unknown
    kind and format, negative sides, quality 1000); it is passed through
    and uploaded like any other, and the job has two results. *)
Lemma out_of_range_operation_yields_a_result :
  let job := jobOf [resizeSmall; outOfRange] in
  validParameters resizeSmall = true /\
  validParameters outOfRange = false /\
  (downloadImage calm (Job.ImageURL job) start).1 = Ok (raster 100 80) /\
  exists job',
    (handleDelivery calm (Envelope job) start).1 = Done (Some job') /\
    Job.Status job' = StatusCompleted /\
    length (Job.Results job') = 2%nat /\
    ~ (exists r, Job.Results job' = [r]).
Proof.
  cbv zeta. split; [reflexivity|]. split; [reflexivity|].
  split; [reflexivity|].
  eexists. split; [vm_compute; reflexivity|].
  split; [reflexivity|]. split; [reflexivity|].
  intros [r Hr]. discriminate Hr.
Qed.

Lemma second_operation_failure_keeps_first_result_witness :
  let job := jobOf [resizeSmall; resizeTiny] in
  let res1 :=
    ProcessedImage.mk
      (ImageOperation.with_OutputKey "processed/j1/resize_f81d4fa0" resizeSmall)
      "processed/j1/resize_f81d4fa0.jpg" "processed/j1/resize_f81d4fa0"
      0 50 40 FormatJPEG 1 in
  exists job',
    (ProcessJob flaky job start).1 = Done (job', None) /\
    Job.Status job' = StatusCompleted /\
    Job.Results job' = [res1] /\
    (exists out1, applyOperation (raster 100 80) resizeSmall = Done (Ok out1) /\
       ProcessedImage.Operation res1
       = ImageOperation.with_OutputKey (ProcessedImage.OutputKey res1)
           resizeSmall) /\
    (exists out2 e',
       applyOperation (raster 100 80) resizeTiny = Done (Ok out2) /\
       "failed to upload result: failed to upload to storage: connection reset"
       = "failed to upload result: " +:+ e').
Proof.
  cbv zeta.
  apply (second_operation_failure_keeps_first_result flaky
           (jobOf [resizeSmall; resizeTiny]) start (raster 100 80)
           resizeSmall resizeTiny);
    vm_compute; reflexivity.
Defined.

Lemma http_error_fails_job_witness :
  let job := jobOf [resizeSmall] in
  exists job',
    (handleDelivery missing (Envelope job) start).1 = Done (Some job') /\
    Job.Status job' = StatusFailed /\
    Job.Error job'
      = "failed to download image: " +:+ "HTTP error: " +:+ pretty 404 /\
    Job.Error job' <> "" /\
    Job.Results job' = [] /\
    let s' := (handleDelivery missing (Envelope job) start).2 in
    applied (trace s') = applied (trace start) /\
    uploads (trace s') = uploads (trace start) /\
    bucket s' = bucket start /\
    exists ok, last (trace s') = Some (EvSet ("job:" +:+ Job.ID job) job' ok).
Proof.
  cbv zeta.
  apply (http_error_fails_job missing (jobOf [resizeSmall]) start 404 []).
  - reflexivity.
  - reflexivity.
  - lia.
  - reflexivity.
Defined.

(** C6 on a WebP operation that asks for no quality: the object stored
    is the JPEG encoding of the raster at quality 90, whose scale of
    quantization is 20. *)
Lemma default_quality_is_90_witness :
  let op := ImageOperation.mk OpFormat 0 0 FormatWebP 0 "" "out/b" in
  let r := uploadResult calm (raster 100 80) op start in
  jpegEncode (raster 100 80) 90
  = Ok [Byte.xff; Byte.xd8; Byte.x00; Byte.x14;
        Byte.x00; Byte.x64; Byte.x00; Byte.x50] /\
  uploads (trace r.2) = uploads (trace start) ++ ["out/b.webp"] /\
  r.1 = Ok "out/b.webp" /\
  bucket r.2 !! "out/b.webp"
  = Some (Build_Object [Byte.xff; Byte.xd8; Byte.x00; Byte.x14;
                        Byte.x00; Byte.x64; Byte.x00; Byte.x50]
            "image/webp").
Proof.
  cbv zeta. split; [reflexivity|].
  pose proof (default_quality_is_90 calm
                (ImageOperation.mk OpFormat 0 0 FormatWebP 0 "" "out/b")
                (raster 100 80) start (or_intror eq_refl) eq_refl) as Hq.
  cbv zeta in Hq.
  change (jpegEncode (raster 100 80) 90)
    with (@Ok Bytes
            [Byte.xff; Byte.xd8; Byte.x00; Byte.x14;
             Byte.x00; Byte.x64; Byte.x00; Byte.x50]) in Hq.
  cbv beta iota in Hq.
  destruct Hq as [Hu [Hr Hb]].
  split; [exact Hu|]. split; [exact Hr | exact Hb].
Defined.

(** At other qualities the encoder is given what the operation asks
    for. *)
Example explicit_quality_is_used :
  runEncoder (encoderFor testThumbnail) (raster 200 200)
  = jpegEncode (raster 200 200) 85 /\
  jpegEncode (raster 200 200) 85 <> jpegEncode (raster 200 200) 90.
Proof. split; [reflexivity | vm_compute; discriminate]. Qed.

(** C7: the operation of validate-system.sh names the output key
    [test-thumbnail]; its object is stored under [test-thumbnail.jpg], and
    nothing is stored under [test-thumbnail]. *)
Lemma explicit_key_is_not_the_stored_key :
  let r := processOperation calm (raster 100 80) testThumbnail "j1" start in
  ImageOperation.OutputKey testThumbnail = "test-thumbnail" /\
  (exists res, r.1 = Done (Ok res)) /\
  uploads (trace r.2) = ["test-thumbnail.jpg"] /\
  uploads (trace r.2) <> [ImageOperation.OutputKey testThumbnail] /\
  bucket r.2 !! "test-thumbnail" = None /\
  is_Some (bucket r.2 !! "test-thumbnail.jpg").
Proof.
  cbv zeta. split; [reflexivity|].
  split; [eexists; vm_compute; reflexivity|].
  split; [vm_compute; reflexivity|].
  split; [vm_compute; discriminate|].
  split; [vm_compute; reflexivity|].
  vm_compute. eauto.
Qed.

Lemma stored_key_is_key_plus_extension_witness :
  let r := processOperation calm (raster 100 80) resizeSmall "j1" start in
  exists key obj,
    bucket r.2 = <[key +:+ ".jpg" := obj]> (bucket start) /\
    uploads (trace r.2) = uploads (trace start) ++ [key +:+ ".jpg"] /\
    (ImageOperation.OutputKey resizeSmall <> "" ->
       key = ImageOperation.OutputKey resizeSmall /\ uuids r.2 = uuids start) /\
    (ImageOperation.OutputKey resizeSmall = "" ->
       key = "processed/" +:+ "j1" +:+ "/" +:+ "resize" +:+ "_"
               +:+ String.substring 0 8 (uuid_new calm (uuids start)) /\
       uuids r.2 = S (uuids start)).
Proof.
  cbv zeta.
  refine (stored_key_is_key_plus_extension calm (raster 100 80) resizeSmall
            "j1" start _ _).
  vm_compute. reflexivity.
Defined.

Lemma upload_extension_and_content_type_witness :
  let r := uploadResult calm (raster 100 80) testThumbnail start in
  r.1 = Ok "test-thumbnail.jpg" /\
  "test-thumbnail.jpg" = "test-thumbnail" +:+ ".jpg" /\
  exists buf,
    bucket r.2 !! "test-thumbnail.jpg" = Some (Build_Object buf "image/jpeg") /\
    trace r.2
    = trace start ++ [EvPut "test-thumbnail.jpg" "image/jpeg" true].
Proof.
  cbv zeta. split; [vm_compute; reflexivity|].
  apply (upload_extension_and_content_type calm (raster 100 80)
           testThumbnail start "test-thumbnail.jpg").
  vm_compute. reflexivity.
Defined.

Lemma default_operation_on_admission_witness :
  exists job,
    Job.Operations job
    = [ImageOperation.mk OpResize 800 600 FormatJPEG 90 "" ""] /\
    Job.Status job = StatusPending /\
    Job.ImageURL job = "http://example.org/a.png" /\
    Job.Results job = [] /\
    let (resp, s') :=
      handleCreateJob calm "POST"
        (Ok (Build_CreateJobRequest "http://example.org/a.png" [])) start in
    resp = JobResponse "Job created successfully" job /\
    rdb s' !! ("job:" +:+ Job.ID job) = Some (Build_Entry job (24 * Hour)) /\
    queue s' = queue start ++ [job].
Proof.
  apply (default_operation_on_admission calm
           (Build_CreateJobRequest "http://example.org/a.png" []) start).
  - discriminate.
  - reflexivity.
Defined.

(** C10: a job of two operations.  The first is stored under
    [photo.png]; the second names [photo.png] as its output key and is
    stored under [photo.png.jpg].  The output key of the second result
    names a stored object: the PNG of the first. *)
Lemma output_key_names_a_stored_object :
  let job := jobOf [photoPng; photoJpg] in
  exists job' res1 res2 obj,
    (handleDelivery calm (Envelope job) start).1 = Done (Some job') /\
    Job.Status job' = StatusCompleted /\
    Job.Results job' = [res1; res2] /\
    ProcessedImage.OutputKey res2 = "photo.png" /\
    ProcessedImage.OutputURL res2 = "photo.png.jpg" /\
    ProcessedImage.OutputURL res1 = "photo.png" /\
    bucket (handleDelivery calm (Envelope job) start).2
      !! ProcessedImage.OutputKey res2 = Some obj /\
    ContentType obj = "image/png".
Proof.
  cbv zeta. do 4 eexists.
  split; [vm_compute; reflexivity|].
  split; [reflexivity|]. split; [reflexivity|].
  split; [reflexivity|]. split; [reflexivity|]. split; [reflexivity|].
  split; [vm_compute; reflexivity | reflexivity].
Qed.

Lemma output_url_is_output_key_plus_extension_witness :
  let r := processOperation calm (raster 100 80) testThumbnail "j1" start in
  exists res,
    r.1 = Done (Ok res) /\
    ProcessedImage.OutputURL res
    = ProcessedImage.OutputKey res
        +:+ fileExtension (ProcessedImage.Format res) /\
    (exists obj,
       bucket r.2 = <[ProcessedImage.OutputURL res := obj]> (bucket start)) /\
    uploads (trace r.2)
    = uploads (trace start) ++ [ProcessedImage.OutputURL res] /\
    ProcessedImage.OutputKey res <> ProcessedImage.OutputURL res /\
    bucket r.2 !! ProcessedImage.OutputKey res
    = bucket start !! ProcessedImage.OutputKey res.
Proof.
  cbv zeta. eexists. split; [vm_compute; reflexivity|].
  refine (output_url_is_output_key_plus_extension calm (raster 100 80)
            testThumbnail "j1" start _ _).
  vm_compute. reflexivity.
Defined.

(** The error text of a 404, as the worker stores it. *)
Example http_404_error_text :
  "failed to download image: " +:+ "HTTP error: " +:+ pretty 404
  = "failed to download image: HTTP error: 404".
Proof. reflexivity. Qed.

(** * Concrete runs of the further properties *)

Lemma applyOperation_resize_sides_witness :
  applyOperation (raster 100 80)
    (ImageOperation.mk OpResize 50 (-3) FormatJPEG 0 "" "")
  = omap Ok (Resize (raster 100 80) (Z.max 0 50) (Z.max 0 (-3)) Lanczos).
Proof.
  apply (applyOperation_resize_sides (raster 100 80)
           (ImageOperation.mk OpResize 50 (-3) FormatJPEG 0 "" "")).
  - reflexivity.
  - left. simpl. lia.
Defined.

(** A resize to a width alone keeps the aspect ratio; a resize to a
    width of 2^62 does not return. *)
Example resize_runs :
  applyOperation (raster 100 80)
    (ImageOperation.mk OpResize 50 (-3) FormatJPEG 0 "" "")
  = Done (Ok (raster 50 40)) /\
  applyOperation (raster 100 80) hugeOp
  = Panic "image: NewNRGBA Rectangle has huge or negative dimensions".
Proof. split; reflexivity. Qed.

Lemma applyOperation_pass_through_witness :
  applyOperation (raster 100 80) stamp = Done (Ok (raster 100 80)).
Proof.
  apply (applyOperation_pass_through (raster 100 80) stamp).
  left. discriminate.
Defined.

Lemma other_formats_are_stored_as_jpeg_witness :
  exists buf,
    jpegEncode (raster 100 80) 90 = Ok buf /\
    "out/a.webp" = ImageOperation.OutputKey toWebP +:+ "." +:+ "webp" /\
    bucket (uploadResult calm (raster 100 80) toWebP start).2 !! "out/a.webp"
    = Some (Build_Object buf ("image/" +:+ "webp")).
Proof.
  apply (other_formats_are_stored_as_jpeg calm (raster 100 80) toWebP start
           "out/a.webp").
  - discriminate.
  - discriminate.
  - vm_compute. reflexivity.
Defined.

Lemma failed_operation_stores_nothing_witness :
  let r := processOperation calm (raster 100 80) tooWide "j1" start in
  bucket r.2 = bucket start /\ rdb r.2 = rdb start /\ queue r.2 = queue start.
Proof.
  apply (failed_operation_stores_nothing calm (raster 100 80) tooWide "j1"
           start
           "failed to upload result: failed to encode image: jpeg: image is too large to encode").
  vm_compute. reflexivity.
Defined.

Lemma result_fields_witness :
  exists res out,
    (processOperation calm (raster 100 80) resizeSmall "j1" start).1
    = Done (Ok res) /\
    applyOperation (raster 100 80) resizeSmall = Done (Ok out) /\
    ProcessedImage.Width res = Dx out /\
    ProcessedImage.Height res = Dy out /\
    resultOf res resizeSmall /\
    ProcessedImage.Size res = 0 /\
    ProcessedImage.ProcessingTime res
    = clock calm (S (ticks start)) - clock calm (ticks start).
Proof.
  eexists.
  assert (Hr : (processOperation calm (raster 100 80) resizeSmall "j1"
                  start).1 = Done (Ok _)) by (vm_compute; reflexivity).
  destruct (result_fields calm (raster 100 80) resizeSmall "j1" start _ Hr)
    as (out & Hout).
  exists out. split; [exact Hr | exact Hout].
Defined.

(** X6 on the operation of validate-system.sh: the JPEG stored under
    [test-thumbnail.jpg] is read back as a raster of 200 x 200. *)
Lemma output_url_is_a_source_reference_witness :
  let r := processOperation calm (raster 100 80) testThumbnail "j1" start in
  exists out buf img',
    applyOperation (raster 100 80) testThumbnail = Done (Ok out) /\
    runEncoder (encoderFor testThumbnail) out = Ok buf /\
    Decode buf = Ok img' /\
    (downloadImage calm "test-thumbnail.jpg" r.2).1 = Ok img'.
Proof.
  cbv zeta.
  refine (output_url_is_a_source_reference calm (raster 100 80) testThumbnail
            "j1" start
            (ProcessedImage.mk testThumbnail "test-thumbnail.jpg"
               "test-thumbnail" 0 200 200 FormatJPEG 1) _ _ _ _).
  - vm_compute. reflexivity.
  - reflexivity.
  - reflexivity.
  - intros out buf Ha He.
    vm_compute in Ha. injection Ha as <-.
    vm_compute in He. injection He as <-.
    exists (raster 200 200). vm_compute. reflexivity.
Defined.

(** What is read back in that run. *)
Example stored_thumbnail_is_read_back :
  let r := processOperation calm (raster 100 80) testThumbnail "j1" start in
  (downloadImage calm "test-thumbnail.jpg" r.2).1 = Ok (raster 200 200).
Proof. vm_compute. reflexivity. Qed.

Lemma results_follow_operations_witness :
  let job := jobOf [resizeSmall; tooWide; resizeTiny] in
  exists job' ops',
    (ProcessJob calm job start).1 = Done (job', None) /\
    inOrder ops' (Job.Operations job) /\
    Forall2 resultOf (Job.Results job') ops'.
Proof.
  apply (results_follow_operations calm
           (jobOf [resizeSmall; tooWide; resizeTiny]) start (raster 100 80)).
  - reflexivity.
  - reflexivity.
Defined.

Lemma one_result_per_operation_witness :
  let job := jobOf [resizeSmall; resizeTiny] in
  exists job',
    (ProcessJob calm job start).1 = Done (job', None) /\
    Forall2 resultOf (Job.Results job') (Job.Operations job) /\
    length (Job.Results job') = length (Job.Operations job).
Proof.
  apply (one_result_per_operation calm (jobOf [resizeSmall; resizeTiny])
           start (raster 100 80)).
  - reflexivity.
  - reflexivity.
  - repeat constructor; eexists; eexists; split; reflexivity.
Defined.

Lemma acquisition_failure_fails_job_witness :
  let job := jobOf [resizeSmall] in
  exists job',
    (handleDelivery missing (Envelope job) start).1 = Done (Some job') /\
    Job.Status job' = StatusFailed /\
    Job.Error job' = "failed to download image: " +:+ "HTTP error: 404" /\
    Job.Results job' = Job.Results job /\
    Job.CompletedAt job' = Job.CompletedAt job /\
    let s' := (handleDelivery missing (Envelope job) start).2 in
    applied (trace s') = applied (trace start) /\
    uploads (trace s') = uploads (trace start) /\
    bucket s' = bucket start /\ queue s' = queue start.
Proof.
  apply (acquisition_failure_fails_job missing (jobOf [resizeSmall]) start
           "HTTP error: 404").
  reflexivity.
Defined.


Lemma stored_record_is_the_final_job_witness :
  let job := jobOf [resizeSmall] in
  exists job',
    (handleDelivery calm (Envelope job) start).1 = Done (Some job') /\
    is_terminal (Job.Status job') = true /\
    rdb (handleDelivery calm (Envelope job) start).2 !! ("job:" +:+ "j1")
    = Some (Build_Entry job' (24 * Hour)).
Proof.
  apply (stored_record_is_the_final_job calm (jobOf [resizeSmall]) start).
  - reflexivity.
  - reflexivity.
Defined.

Lemma refused_final_write_leaves_in_progress_witness :
  let job := jobOf [resizeSmall] in
  exists job',
    (handleDelivery lossy (Envelope job) start).1 = Done (Some job') /\
    is_terminal (Job.Status job') = true /\
    rdb (handleDelivery lossy (Envelope job) start).2 !! ("job:" +:+ "j1")
    = Some (Build_Entry (Job.with_Status StatusInProgress job) (24 * Hour)).
Proof.
  apply (refused_final_write_leaves_in_progress lossy (jobOf [resizeSmall])
           start "READONLY").
  - reflexivity.
  - reflexivity.
  - reflexivity.
Defined.

Lemma delivery_touches_one_record_witness :
  let job := jobOf [resizeSmall; hugeOp] in
  rdb (handleDelivery calm (Envelope job) start).2 !! "job:j2"
  = rdb start !! "job:j2" /\
  queue (handleDelivery calm (Envelope job) start).2 = queue start.
Proof.
  apply (delivery_touches_one_record calm (jobOf [resizeSmall; hugeOp]) start
           "job:j2").
  discriminate.
Defined.

Lemma delivery_keeps_identity_witness :
  let job := jobOf [resizeSmall; tooWide] in
  exists job',
    (handleDelivery calm (Envelope job) start).1 = Done (Some job') /\
    Job.ID job' = Job.ID job /\
    Job.ImageURL job' = Job.ImageURL job /\
    Job.Operations job' = Job.Operations job /\
    Job.CreatedAt job' = Job.CreatedAt job /\
    ((Job.Status job' = StatusCompleted /\
      is_Some (Job.CompletedAt job') /\ Job.Error job' = Job.Error job)
     \/
     (Job.Status job' = StatusFailed /\
      Job.CompletedAt job' = Job.CompletedAt job /\
      Job.Results job' = Job.Results job)).
Proof.
  apply (delivery_keeps_identity calm (jobOf [resizeSmall; tooWide]) start).
  reflexivity.
Defined.

(** A run of three deliveries: a payload that does not parse, a job
    that is gone through, and a job whose second operation panics. *)
Example consume_runs :
  let msgs := [Malformed "unexpected end of JSON input";
               Envelope storedSourceJob;
               Envelope (jobOf [resizeSmall; hugeOp]);
               Envelope (jobOf [resizeSmall])] in
  returned (consume calm msgs start).1 = false /\
  map fst (statusWrites (trace (consume calm msgs start).2))
  = ["job:j2"; "job:j2"; "job:j1"] /\
  deliveryKeys msgs = ["job:j2"; "job:j2"; "job:j1"; "job:j1"; "job:j1"; "job:j1"] /\
  returned (consume calm (take 2 msgs) start).1 = true /\
  map fst (statusWrites (trace (consume calm (take 2 msgs) start).2))
  = deliveryKeys (take 2 msgs).
Proof. vm_compute. repeat split. Qed.

Lemma same_explicit_key_same_object_witness :
  let r1 := processOperation calm (raster 100 80) testThumbnail "j1" start in
  let r2 := processOperation calm (raster 30 30) testThumbnail "j2" r1.2 in
  exists res1 res2,
    r1.1 = Done (Ok res1) /\ r2.1 = Done (Ok res2) /\
    ProcessedImage.OutputURL res2 = ProcessedImage.OutputURL res1 /\
    exists obj, bucket r2.2 = <[ProcessedImage.OutputURL res1 := obj]> (bucket r1.2).
Proof.
  cbv zeta. eexists. eexists.
  split; [vm_compute; reflexivity|]. split; [vm_compute; reflexivity|].
  refine (same_explicit_key_same_object calm (raster 100 80) (raster 30 30)
            testThumbnail testThumbnail "j1" "j2" start _ _ _ _ _ _ _ _).
  - discriminate.
  - reflexivity.
  - reflexivity.
  - vm_compute. reflexivity.
  - vm_compute. reflexivity.
Defined.

Lemma derived_keys_accumulate_witness :
  let r1 := processOperation calm (raster 100 80) resizeSmall "j1" start in
  let r2 := processOperation calm (raster 100 80) resizeSmall "j1" r1.2 in
  exists res1 res2,
    r1.1 = Done (Ok res1) /\ r2.1 = Done (Ok res2) /\
    ProcessedImage.OutputURL res1 <> ProcessedImage.OutputURL res2 /\
    bucket r2.2 !! ProcessedImage.OutputURL res1
    = bucket r1.2 !! ProcessedImage.OutputURL res1.
Proof.
  cbv zeta. eexists. eexists.
  split; [vm_compute; reflexivity|]. split; [vm_compute; reflexivity|].
  refine (derived_keys_accumulate calm (raster 100 80) (raster 100 80)
            resizeSmall "j1" start _ _ _ _ _ _ _).
  - reflexivity.
  - vm_compute. discriminate.
  - vm_compute. reflexivity.
  - vm_compute. reflexivity.
Defined.

Lemma rejected_request_changes_nothing_witness :
  exists msg code,
    handleCreateJob calm "GET"
      (Ok (Build_CreateJobRequest "http://example.org/a.png" [])) start
    = (HttpError msg code, start) /\
    (code = 405 \/ code = 400).
Proof.
  apply (rejected_request_changes_nothing calm "GET"
           (Ok (Build_CreateJobRequest "http://example.org/a.png" [])) start).
  left. discriminate.
Defined.

Lemma admission_takes_operations_as_given_witness :
  let req := Build_CreateJobRequest "uploads/a.png" [outOfRange; stamp] in
  let job :=
    Job.mk (uuid_new calm 0) StatusPending "uploads/a.png" [outOfRange; stamp]
      (clock calm 0) None [] "" in
  let r := handleCreateJob calm "POST" (Ok req) start in
  r.1 = JobResponse "Job created successfully" job /\
  rdb r.2 !! ("job:" +:+ uuid_new calm 0) = Some (Build_Entry job (24 * Hour)) /\
  queue r.2 = queue start ++ [job].
Proof.
  apply (admission_takes_operations_as_given calm
           (Build_CreateJobRequest "uploads/a.png" [outOfRange; stamp]) start).
  - discriminate.
  - discriminate.
  - reflexivity.
  - reflexivity.
Defined.

Lemma failed_publish_leaves_pending_record_witness :
  let req := Build_CreateJobRequest "uploads/a.png" [] in
  let r := handleCreateJob noBroker "POST" (Ok req) start in
  r.1 = HttpError "failed to publish job" 500 /\
  queue r.2 = queue start /\
  exists job,
    rdb r.2 !! ("job:" +:+ uuid_new noBroker 0)
    = Some (Build_Entry job (24 * Hour)) /\
    Job.Status job = StatusPending /\ Job.ID job = uuid_new noBroker 0.
Proof.
  apply (failed_publish_leaves_pending_record noBroker
           (Build_CreateJobRequest "uploads/a.png" []) start "channel closed").
  - discriminate.
  - reflexivity.
  - reflexivity.
Defined.


Lemma get_job_by_id_witness :
  handleGetJob None "GET" ("/jobs/" +:+ "f81d4fa0") start
  = match rdb start !! ("job:" +:+ "f81d4fa0") with
    | Some entry => StatusJob (envelope entry)
    | None => StatusError "job not found" 404
    end.
Proof.
  apply (get_job_by_id None "f81d4fa0" start).
  reflexivity.
Defined.

Lemma admitted_job_is_reported_witness :
  let req := Build_CreateJobRequest "http://example.org/a.png" [] in
  let s1 := (handleCreateJob calm "POST" (Ok req) start).2 in
  exists job,
    (handleCreateJob calm "POST" (Ok req) start).1
    = JobResponse "Job created successfully" job /\
    handleGetJob None "GET" ("/jobs/" +:+ Job.ID job) s1 = StatusJob job /\
    Job.Status job = StatusPending /\
    exists job',
      (handleDelivery flaky (Envelope job) s1).1 = Done (Some job') /\
      is_terminal (Job.Status job') = true /\
      handleGetJob None "GET" ("/jobs/" +:+ Job.ID job)
        (handleDelivery flaky (Envelope job) s1).2
      = StatusJob job'.
Proof.
  cbv zeta.
  exists (Job.mk (uuid_new calm 0) StatusPending "http://example.org/a.png"
            [ImageOperation.mk OpResize 800 600 FormatJPEG 90 "" ""]
            (clock calm 0) None [] "").
  split; [vm_compute; reflexivity|].
  pose proof (admitted_job_is_reported calm flaky
                (Build_CreateJobRequest "http://example.org/a.png" []) start
                "Job created successfully"
                (Job.mk (uuid_new calm 0) StatusPending
                   "http://example.org/a.png"
                   [ImageOperation.mk OpResize 800 600 FormatJPEG 90 "" ""]
                   (clock calm 0) None [] "")) as Hreport.
  cbv zeta in Hreport.
  destruct Hreport as (Hget & Hpending & Hafter).
  - vm_compute. reflexivity.
  - vm_compute. reflexivity.
  - reflexivity.
  - split; [exact Hget|]. split; [exact Hpending|].
    apply Hafter. vm_compute. reflexivity.
Defined.

Lemma waitForRedis_returns_at_first_success_witness :
  waitForRedis (fun i => if (i <? 2)%nat then Some "connection refused"
                         else None)
  = Build_Waited None 3 (2 * Second).
Proof.
  apply (waitForRedis_returns_at_first_success
           (fun i => if (i <? 2)%nat then Some "connection refused" else None)
           2).
  - lia.
  - reflexivity.
  - intros j Hj. destruct j as [|[|j]]; simpl; [discriminate|discriminate|lia].
Defined.

Lemma waitForRedis_gives_up_after_30_witness :
  waitForRedis (fun _ => Some "connection refused")
  = Build_Waited (Some "Redis not ready after 30 attempts") 30 (30 * Second).
Proof.
  apply (waitForRedis_gives_up_after_30 (fun _ => Some "connection refused")).
  intros j _. discriminate.
Defined.

Lemma NewMinIOClient_ensures_bucket_witness :
  let m := Build_Minio ∅ 2 0 in
  exists c,
    (NewMinIOClient slowBoot m).1 = Ok c /\
    BucketName c = getEnv (environ slowBoot) "MINIO_BUCKET" "images" /\
    BucketName c ∈ buckets (NewMinIOClient slowBoot m).2 /\
    buckets (NewMinIOClient slowBoot m).2 = {[BucketName c]} ∪ buckets m.
Proof.
  cbv zeta. eexists. split; [vm_compute; reflexivity|].
  refine (NewMinIOClient_ensures_bucket slowBoot (Build_Minio ∅ 2 0) _ _).
  vm_compute. reflexivity.
Defined.

Lemma WaitForMinIO_success_witness :
  getEnv (environ slowBoot) "MINIO_BUCKET" "images"
    ∈ buckets (WaitForMinIO slowBoot noBuckets).2 /\
  (1 <= attempts (WaitForMinIO slowBoot noBuckets).1 <= 30)%nat /\
  slept (WaitForMinIO slowBoot noBuckets).1
  = (Z.of_nat (attempts (WaitForMinIO slowBoot noBuckets).1) - 1) * Second.
Proof.
  apply (WaitForMinIO_success slowBoot noBuckets).
  vm_compute. reflexivity.
Defined.

Lemma client_after_wait_makes_no_bucket_witness :
  makeCalls (NewMinIOClient slowBoot (WaitForMinIO slowBoot noBuckets).2).2
  = makeCalls (WaitForMinIO slowBoot noBuckets).2 /\
  buckets (NewMinIOClient slowBoot (WaitForMinIO slowBoot noBuckets).2).2
  = buckets (WaitForMinIO slowBoot noBuckets).2.
Proof.
  apply (client_after_wait_makes_no_bucket slowBoot noBuckets).
  vm_compute. reflexivity.
Defined.

(** The wait of [slowBoot]: two refused attempts, then the bucket is
    made. *)
Example slowBoot_wait :
  (WaitForMinIO slowBoot noBuckets).1 = Build_Waited None 3 (2 * Second) /\
  makeCalls (WaitForMinIO slowBoot noBuckets).2 = 1%nat.
Proof. vm_compute. split; reflexivity. Qed.
